(** * printerbot: the text layout engine, the printer front end, the tables
    and the message handler

    A shallow embedding of [text_to_img.py], [citizen_api.py], [db.py] and the
    handlers of [tg_serve.py], with the properties of the layout pipeline

        text -> letters -> words -> word_table -> compile_text

    and of what the bot prints, stores and charges.

    Conventions of the embedding:
    - a Python [str] is the list of its code points ([N]), so that [ord] is the
      identity and U+FE0F is an ordinary element;
    - Python [int] is [Z]; a Python [float] is a binary64 number of IEEE 754,
      and [/], [*] and [+] on floats round to nearest, ties to even, as the
      processor does: the floats are the [spec_float] of the Standard
      Library, with its operations at 53 bits of precision;
    - an exception is a value [Raise e] of the type [result];
    - the closures [new_word], [newline] and [add_word] that mutate variables
      of the enclosing function become functions on an explicit state record. *)

From Stdlib Require Import ZArith QArith Qround List Lia Bool String Ascii.
From Stdlib Require Import SpecFloat.
From stdpp Require Import gmap.
Import ListNotations.

#[local] Open Scope Z_scope.

(** ** Exceptions *)

Inductive exn : Type :=
| IndexError
| ZeroDivisionError
| ValueError
| IntegrityError
| OSError
| NothingToPrint.

Inductive result (A : Type) : Type :=
| Ok (a : A)
| Raise (e : exn).

Arguments Ok {A} a.
Arguments Raise {A} e.

Definition bind {A B : Type} (r : result A) (k : A -> result B) : result B :=
  match r with
  | Ok a => k a
  | Raise e => Raise e
  end.

Notation "'let*' x ':=' r 'in' k" := (bind r (fun x => k))
  (at level 10, x pattern, r at level 100, k at level 200).

(** A [for] loop whose body may raise: the loop stops at the first exception. *)
Fixpoint for_each {S A : Type} (body : S -> A -> result S) (xs : list A) (s : S)
  : result S :=
  match xs with
  | [] => Ok s
  | x :: xs' => let* s' := body s x in for_each body xs' s'
  end.

(** ** Python primitives *)

(** A string is the sequence of its code points. *)
Definition str : Type := list N.

(** The code points of an ASCII literal. *)
Definition py (s : string) : str := map N_of_ascii (list_ascii_of_string s).

Definition NL : N := 10.
Definition SPACE : N := 32.
(** [b'\xef\xb8\x8f'.decode()], the variation selector U+FE0F. *)
Definition VS16 : N := 65039.

Definition str_eqb (a b : str) : bool := bool_decide (a = b).

(** [len(s)] *)
Definition len {A : Type} (l : list A) : Z := Z.of_nat (length l).

(** [c in chars] *)
Definition char_in (c : N) (chars : str) : bool := existsb (N.eqb c) chars.

(** [s.lstrip(chars)], [s.rstrip(chars)] and [s.strip(chars)] *)
Fixpoint lstrip (chars : str) (s : str) : str :=
  match s with
  | [] => []
  | c :: s' => if char_in c chars then lstrip chars s' else s
  end.

Definition rstrip (chars : str) (s : str) : str := rev (lstrip chars (rev s)).

Definition strip (chars : str) (s : str) : str := rstrip chars (lstrip chars s).

(** *** Floats

    The format of a Python [float]: binary64, 53 bits of precision, exponents
    below 1024. A finite float [S754_finite s m e] is the number
    [(-1)^s * m * 2^e]. Every operation rounds its exact result once, to the
    nearest float, ties to even.

    The sizes and lengths this program multiplies and divides are far from
    the end of the binary64 range. Beyond it Python raises [OverflowError] on
    [float(z)] and on [/], where the operations below give an infinity, and
    [int] raises on an infinity and on a NaN, where [py_int] is [0]: these
    exceptions are left out. *)
Definition float : Type := spec_float.

Definition float_prec : Z := 53.
Definition float_emax : Z := 1024.

(** [float(z)], the conversion an integer undergoes when it meets a float in
    an operation: the nearest float. *)
Definition float_of_int (z : Z) : float :=
  binary_normalize float_prec float_emax z 0 false.

(** [x * y] and [x + y] on floats. *)
Definition float_mul (x y : float) : float := SFmul float_prec float_emax x y.
Definition float_add (x y : float) : float := SFadd float_prec float_emax x y.

(** An integer as the unrounded number [z * 2^0]. *)
Definition int_exact (z : Z) : float :=
  match z with
  | Z0 => S754_zero false
  | Zpos p => S754_finite false p 0
  | Zneg p => S754_finite true p 0
  end.

(** [a / b] on two integers: the float nearest to the quotient of the two
    integers, however large they are. *)
Definition truediv (a b : Z) : result float :=
  if b =? 0 then Raise ZeroDivisionError
  else Ok (SFdiv float_prec float_emax (int_exact a) (int_exact b)).

(** [int(x)] on a float: truncation toward zero. *)
Definition py_int (x : float) : Z :=
  match x with
  | S754_finite s m e => cond_Zopp s (Z.shiftl (Zpos m) e)
  | _ => 0
  end.

(** [math.ceil(x)] *)
Definition py_ceil (x : float) : Z :=
  match x with
  | S754_finite s m e => - Z.shiftl (- cond_Zopp s (Zpos m)) e
  | _ => 0
  end.

(** [a // b] on two integers: the floor quotient. *)
Definition floordiv (a b : Z) : result Z :=
  if b =? 0 then Raise ZeroDivisionError else Ok (a / b).

(** [range(n)] *)
Definition range (n : Z) : list Z := map Z.of_nat (seq 0 (Z.to_nat n)).

(** The clamping of one bound of a slice of a sequence of length [n]. *)
Definition slice_bound (n i : Z) : Z :=
  if i <? 0 then Z.max 0 (i + n) else Z.min i n.

(** [s[a:b]] *)
Definition slice {A : Type} (s : list A) (a b : Z) : list A :=
  let a' := slice_bound (len s) a in
  let b' := slice_bound (len s) b in
  firstn (Z.to_nat (b' - a')) (skipn (Z.to_nat a') s).

(** [l[0]] and [l[-1]] *)
Definition first_item {A : Type} (l : list A) : result A :=
  match l with
  | [] => Raise IndexError
  | x :: _ => Ok x
  end.

Fixpoint last_item {A : Type} (l : list A) : result A :=
  match l with
  | [] => Raise IndexError
  | [x] => Ok x
  | _ :: l' => last_item l'
  end.

(** [max(l)] on integers *)
Definition py_max (l : list Z) : result Z :=
  match l with
  | [] => Raise ValueError
  | x :: l' => Ok (fold_left Z.max l' x)
  end.

(** ** text_to_img.py: [Font] *)

Definition FONT_SIZE : Z := 136.

(** A [Font] object. [Font] defines no [__eq__], so [==] on fonts is object
    identity: [oid] stands for the identity of the object. [cmap_tables] holds,
    for each table of [self.fnt['cmap'].tables], the keys of [table.cmap];
    [getsize_example] is [self.img.getsize(self.example)]. *)
Record Font : Type := {
  oid : N;
  path : str;
  cmap_tables : list (list N);
  example : str;
  getsize_example : Z * Z;
}.

Definition font_eqb (f g : Font) : bool := N.eqb (oid f) (oid g).

Definition letter_width (self : Font) : result float :=
  truediv (fst (getsize_example self)) (len (example self)).

Definition letter_height (self : Font) : Z := snd (getsize_example self).

Definition has_symbol (self : Font) (letter : N) : bool :=
  existsb (fun table => existsb (N.eqb letter) table) (cmap_tables self).

(** ** text_to_img.py: [TextProcessor] *)

(** The attributes the methods read through [self]. *)
Record TextProcessor : Type := {
  fonts : list Font;
  PIXELS_PER_LINE : Z;
  IMAGE_PIX_WIDTH : Z;
}.

(** [TextProcessor(fonts)] with the class attributes of the source. *)
Definition TextProcessor_init (fonts : list Font) : TextProcessor :=
  {| fonts := fonts;
     PIXELS_PER_LINE := 20;
     IMAGE_PIX_WIDTH := 20 * FONT_SIZE |}.

Definition Token : Type := N * Font.
Definition Word : Type := str * Font.
Definition Line : Type := list Word.

(** *** [letters] *)

(** One iteration of [for letter in text.strip(' \n')]. The inner
    [for font in self.fonts: if font.has_symbol(letter): ...; break] is the
    search of the first supporting font; its [else] branch runs when the
    search fails. *)
Definition letters_body (self : TextProcessor) (acc : list Token) (letter : N)
  : result (list Token) :=
  match find (fun font => has_symbol font letter) (fonts self) with
  | Some font => Ok (acc ++ [(letter, font)])
  | None =>
      if N.eqb letter NL then
        let* font0 := first_item (fonts self) in
        Ok (acc ++ [(NL, font0)])
      else if N.eqb letter VS16 then Ok acc
      else Ok acc
  end.

Definition letters (self : TextProcessor) (text : str) : result (list Token) :=
  for_each (letters_body self) (strip [SPACE; NL] text) [].

(** *** [words] *)

Record words_state : Type := {
  ws_words : list Word;
  current_font : Font;
  current_word : str;
}.

(** The closure [new_word(font_)]. *)
Definition new_word (font_ : Font) (st : words_state) : words_state :=
  match current_word st with
  | [] => st
  | _ :: _ =>
      {| ws_words := ws_words st ++ [(current_word st, font_)];
         current_font := current_font st;
         current_word := [] |}
  end.

(** [current_word.append(letter)] *)
Definition push_letter (letter : N) (st : words_state) : words_state :=
  {| ws_words := ws_words st;
     current_font := current_font st;
     current_word := current_word st ++ [letter] |}.

(** [current_font = font] *)
Definition set_font (font : Font) (st : words_state) : words_state :=
  {| ws_words := ws_words st;
     current_font := font;
     current_word := current_word st |}.

(** One iteration of [for letter, font in letters]. *)
Definition words_body (st : words_state) (tok : Token) : words_state :=
  let '(letter, font) := tok in
  let st1 :=
    if char_in letter [NL; SPACE] then new_word (current_font st) st else st in
  if char_in letter [NL; SPACE] && N.eqb letter NL then
    new_word font (push_letter letter st1)
  else if font_eqb (current_font st1) font then
    push_letter letter st1
  else
    set_font font (push_letter letter (new_word font st1)).

Definition words (letters : list Token) : result (list Word) :=
  let* first := first_item letters in
  let st0 := {| ws_words := []; current_font := snd first; current_word := [] |} in
  let st := fold_left words_body letters st0 in
  Ok (ws_words (new_word (current_font st) st)).

(** *** [word_table] *)

(** The variables [table] and [line_pix_len] that [newline] and [add_word]
    share. The table operations do not look at the items of a line. *)
Record table_state (A : Type) : Type := {
  table : list (list A);
  line_pix_len : Z;
}.

Arguments table {A} _.
Arguments line_pix_len {A} _.

(** [table[-1].append(item)] *)
Fixpoint append_to_last {A : Type} (table : list (list A)) (item : A)
  : result (list (list A)) :=
  match table with
  | [] => Raise IndexError
  | [line] => Ok [line ++ [item]]
  | line :: table' =>
      let* t := append_to_last table' item in Ok (line :: t)
  end.

(** The closure [newline()]. *)
Definition newline {A : Type} (self : TextProcessor) (st : table_state A)
  : result (table_state A) :=
  let* cur := last_item (table st) in
  match cur with
  | [] => Ok st
  | _ :: _ =>
      Ok {| table := table st ++ [[]];
            line_pix_len := IMAGE_PIX_WIDTH self |}
  end.

(** The closure [add_word(word_, font_)]; [word_pix_length] is the variable of
    the enclosing loop that the closure reads. *)
Definition add_word {A : Type} (word_pix_length : Z) (item : A)
  (st : table_state A) : result (table_state A) :=
  let* t := append_to_last (table st) item in
  Ok {| table := t; line_pix_len := line_pix_len st - word_pix_length |}.

(** [int(len(word) * font.letter_width + 1)] *)
Definition word_pix_length_of (word : str) (font : Font) : result Z :=
  let* lw := letter_width font in
  Ok (py_int (float_add (float_mul (float_of_int (len word)) lw)
                (float_of_int 1))).

(** One iteration of [for word, font in words]. *)
Definition word_table_body (self : TextProcessor) (st : table_state Word)
  (w : Word) : result (table_state Word) :=
  let '(word, font) := w in
  if str_eqb word [NL] then newline self st
  else
    let* word_pix_length := word_pix_length_of word font in
    if word_pix_length <=? line_pix_len st then
      add_word word_pix_length (word, font) st
    else if word_pix_length <=? IMAGE_PIX_WIDTH self then
      let* st1 := newline self st in
      add_word word_pix_length (word, font) st1
    else
      let* q := floordiv (word_pix_length - 1) (IMAGE_PIX_WIDTH self) in
      let lines_count := q + 1 in
      let* word_part_len := floordiv (IMAGE_PIX_WIDTH self) (letter_height font) in
      for_each
        (fun st idx =>
           let* st1 := newline self st in
           let word_part :=
             slice word (idx * word_part_len) ((idx + 1) * word_part_len) in
           add_word word_pix_length (word_part, font) st1)
        (range lines_count) st.

Definition word_table_init (self : TextProcessor) {A : Type} : table_state A :=
  {| table := [[]]; line_pix_len := IMAGE_PIX_WIDTH self |}.

Definition word_table (self : TextProcessor) (text : str)
  : result (list Line) :=
  let* ls := letters self text in
  let* ws := words ls in
  let* st := for_each (word_table_body self) ws (word_table_init self) in
  Ok (table st).

(** *** [compile_text] *)

(** A PIL image, as far as the program can tell images apart: how it was made
    and its size. *)
Inductive Image : Type :=
| Image_new (size : Z * Z) (color : Z)
| Image_text (img : Image) (xy : float * Z) (text : str) (font : Font)
    (fill : Z)
| Image_resize (img : Image) (size : Z * Z)
| Image_open (size : Z * Z) (data : list N).

Fixpoint image_size (img : Image) : Z * Z :=
  match img with
  | Image_new size _ => size
  | Image_text img' _ _ _ _ => image_size img'
  | Image_resize _ size => size
  | Image_open size _ => size
  end.

(** The inner loop [for word, font in line] on the image and [counter]. *)
Definition draw_word (st : Image * (float * Z)) (w : Word)
  : result (Image * (float * Z)) :=
  let '(img, counter) := st in
  let '(word, font) := w in
  let img' := Image_text img counter word font 0 in
  let* lw := letter_width font in
  Ok (img',
      (float_add (fst counter) (float_mul (float_of_int (len word)) lw),
       snd counter)).

(** The outer loop [for line in table]. *)
Definition draw_line (line_heigth : Z) (st : Image * (float * Z))
  (line : Line) : result (Image * (float * Z)) :=
  let* (img, counter) := for_each draw_word line st in
  Ok (img, (float_of_int 0, snd counter + line_heigth)).

Definition compile_text (self : TextProcessor) (text : str) : result Image :=
  let* table := word_table self text in
  let* line_heigth := py_max (map letter_height (fonts self)) in
  let size := (PIXELS_PER_LINE self * FONT_SIZE, line_heigth * len table) in
  let img := Image_new size 16777215 in
  let* (img', _) :=
    for_each (draw_line line_heigth) table (img, (float_of_int 0, 0)) in
  Ok img'.

(** ** The font set of the specification's test properties *)

Definition ascii_letters : list N :=
  map N.of_nat (seq 65 26) ++ map N.of_nat (seq 97 26).

(** Font A: [letter_width = 10], [letter_height = 20], ASCII letters, space
    and newline. *)
Definition FontA : Font :=
  {| oid := 1;
     path := py "A.ttf";
     cmap_tables := [ascii_letters ++ [SPACE; NL]];
     example := py "mm";
     getsize_example := (20, 20) |}.

(** Font B: [letter_width = 15], [letter_height = 25], one emoji only. *)
Definition FontB : Font :=
  {| oid := 2;
     path := py "B.ttf";
     cmap_tables := [[128131%N]];
     example := [128131%N];
     getsize_example := (15, 25) |}.

(** The test processor: canvas width [W = 100]. *)
Definition TEST_PROCESSOR : TextProcessor :=
  {| fonts := [FontA; FontB];
     PIXELS_PER_LINE := 20;
     IMAGE_PIX_WIDTH := 100 |}.

(** A font of realistic size whose average letter width is not an integer:
    [letter_width = 259 / 2 = 129.5]. *)
Definition FontC : Font :=
  {| oid := 3;
     path := py "C.ttf";
     cmap_tables := [ascii_letters ++ [SPACE]];
     example := py "mm";
     getsize_example := (259, 140) |}.

(** A font whose average letter width, [995 / 15], is not a float: the
    nearest float is a little below it. *)
Definition FontD : Font :=
  {| oid := 4;
     path := py "D.ttf";
     cmap_tables := [ascii_letters ++ [SPACE]];
     example := repeat 109%N 15;
     getsize_example := (995, 140) |}.

(** ** [word_table] with a ghost mark on every word

    The same loop as [word_table_body], except that every item put in the
    table carries a boolean: [true] for a fragment made by the forced split of
    a word wider than the canvas, [false] for a word placed whole. *)

Definition word_table_body_marked (self : TextProcessor)
  (st : table_state (Word * bool)) (w : Word)
  : result (table_state (Word * bool)) :=
  let '(word, font) := w in
  if str_eqb word [NL] then newline self st
  else
    let* word_pix_length := word_pix_length_of word font in
    if word_pix_length <=? line_pix_len st then
      add_word word_pix_length ((word, font), false) st
    else if word_pix_length <=? IMAGE_PIX_WIDTH self then
      let* st1 := newline self st in
      add_word word_pix_length ((word, font), false) st1
    else
      let* q := floordiv (word_pix_length - 1) (IMAGE_PIX_WIDTH self) in
      let lines_count := q + 1 in
      let* word_part_len := floordiv (IMAGE_PIX_WIDTH self) (letter_height font) in
      for_each
        (fun st idx =>
           let* st1 := newline self st in
           let word_part :=
             slice word (idx * word_part_len) ((idx + 1) * word_part_len) in
           add_word word_pix_length ((word_part, font), true) st1)
        (range lines_count) st.

Definition word_table_marked (self : TextProcessor) (text : str)
  : result (list (list (Word * bool))) :=
  let* ls := letters self text in
  let* ws := words ls in
  let* st := for_each (word_table_body_marked self) ws (word_table_init self) in
  Ok (table st).

(** Forgetting the marks. *)
Definition unmark (tbl : list (list (Word * bool))) : list Line :=
  map (map fst) tbl.

Definition unmark_state (st : table_state (Word * bool)) : table_state Word :=
  {| table := unmark (table st); line_pix_len := line_pix_len st |}.

(** A line without forced-split fragment. *)
Definition no_fragment (line : list (Word * bool)) : bool :=
  forallb (fun it => negb (snd it)) line.

(** ** Measures of a line *)

(** The sum over the words of a line of a pixel length that may raise. *)
Definition line_pixels (pix : Word -> result Z) (line : Line) : result Z :=
  for_each (fun total w => let* p := pix w in Ok (total + p)) line 0.

(** The pixel length the loop of [word_table] computes for a word. *)
Definition code_word_pixels (w : Word) : result Z :=
  word_pix_length_of (fst w) (snd w).

(** The pixel length as the specification words it:
    [ceil(len(word) * font.letter_width) + 1]. *)
Definition spec_word_pixels (w : Word) : result Z :=
  let* lw := letter_width (snd w) in
  Ok (py_ceil (float_mul (float_of_int (len (fst w))) lw) + 1).

(** [ceil(a / b)] as the specification words it. *)
Definition ceil_div (a b : Z) : Z := Qceiling (inject_Z a / inject_Z b)%Q.

(** ** The segmenter as the specification words it *)

(** [f] is the first font of [fs], in priority order, that has a glyph for [c]. *)
Definition first_supporting (fs : list Font) (c : N) (f : Font) : Prop :=
  exists before after,
    fs = before ++ f :: after /\
    has_symbol f c = true /\
    Forall (fun g => has_symbol g c = false) before.

Definition unsupported (fs : list Font) (c : N) : Prop :=
  Forall (fun g => has_symbol g c = false) fs.

(** The tokens one character gives rise to. *)
Inductive emits (fs : list Font) (c : N) : list Token -> Prop :=
| emits_resolved f :
    first_supporting fs c f -> emits fs c [(c, f)]
| emits_newline f0 rest :
    unsupported fs c -> c = NL -> fs = f0 :: rest -> emits fs c [(NL, f0)]
| emits_dropped :
    unsupported fs c -> c <> NL -> emits fs c [].

(** ** Shape of the words *)

(** A word without newline whose only possible space is its first character. *)
Definition plain_word (w : str) : Prop :=
  ~ In NL w /\ ~ In SPACE (tl w).

(** ** citizen_api.py *)

Definition CITIZEN_CT_S2000_WIDTH : Z := 600.

(** [img.resize(size, resample=BILINEAR)]: PIL returns a copy when [size] is
    the size of the image, and otherwise refuses with [ValueError] a size with
    a side below 1. *)
Definition Image_resize_to (img : Image) (size : Z * Z) : result Image :=
  if (fst size =? fst (image_size img)) && (snd size =? snd (image_size img))
  then Ok (Image_resize img size)
  else if (fst size <? 1) || (snd size <? 1) then Raise ValueError
  else Ok (Image_resize img size).

Definition resize_img (img : Image) : result Image :=
  let* ratio := truediv (snd (image_size img)) (fst (image_size img)) in
  let new_size :=
    (CITIZEN_CT_S2000_WIDTH,
     py_int (float_mul ratio (float_of_int CITIZEN_CT_S2000_WIDTH))) in
  Image_resize_to img new_size.

(** What [citizen_print_msg] does to the world, in order: the calls of the
    layout core and the commands sent to [PRINTER]. *)
Inductive event : Type :=
| Call_compile_text (text : str)
| Printer_image (img : Image)
| Printer_text (s : str)
| Printer_cut.

(** A computation that extends the trace of events and may raise. *)
Definition io (A : Type) : Type := list event -> result A * list event.

Definition io_ret {A : Type} (a : A) : io A := fun tr => (Ok a, tr).

Definition io_raise {A : Type} (e : exn) : io A := fun tr => (Raise e, tr).

Definition io_lift {A : Type} (r : result A) : io A := fun tr => (r, tr).

Definition io_emit (ev : event) : io unit := fun tr => (Ok tt, tr ++ [ev]).

Definition io_bind {A B : Type} (c : io A) (k : A -> io B) : io B :=
  fun tr =>
    match c tr with
    | (Ok a, tr') => k a tr'
    | (Raise e, tr') => (Raise e, tr')
    end.

Notation "'let!' x ':=' c 'in' k" := (io_bind c (fun x => k))
  (at level 10, x pattern, c at level 100, k at level 200).

Fixpoint io_for_each {A : Type} (body : A -> io unit) (xs : list A) : io unit :=
  match xs with
  | [] => io_ret tt
  | x :: xs' => let! _ := body x in io_for_each body xs'
  end.

(** Truth value of an [Optional[str]]: [None] and the empty string are false. *)
Definition text_truthy (text : option str) : bool :=
  match text with
  | Some (_ :: _) => true
  | _ => false
  end.

(** Truth value of an [Optional[Image]]: an image object is always true. *)
Definition img_truthy (img : option Image) : bool :=
  match img with
  | Some _ => true
  | None => false
  end.

Section CitizenApi.

(** The module-level processor [TEXT_PROCESSOR] imported from [text_to_img]. *)
Variable TEXT_PROCESSOR : TextProcessor.

Definition citizen_print_msg (text : option str) (img : option Image)
  (user_name : str) : io unit :=
  if negb (text_truthy text) && negb (img_truthy img) then
    io_raise NothingToPrint
  else
    let! images1 :=
      match img with
      | Some i => let! r := io_lift (resize_img i) in io_ret [r]
      | None => io_ret []
      end in
    let! images_to_print :=
      match text with
      | Some (c :: t) =>
          let! _ := io_emit (Call_compile_text (c :: t)) in
          let! canvas := io_lift (compile_text TEXT_PROCESSOR (c :: t)) in
          let! r := io_lift (resize_img canvas) in
          io_ret (images1 ++ [r])
      | _ => io_ret images1
      end in
    let! _ :=
      io_for_each
        (fun img_ =>
           let! _ := io_emit (Printer_image img_) in
           io_emit (Printer_text [NL]))
        images_to_print in
    let! _ := io_emit (Printer_text (py "@" ++ user_name ++ [NL])) in
    io_emit Printer_cut.

End CitizenApi.

(** ** db.py: the [User] model *)

Module User.

(** The table [user]: the primary key [name] maps to the nullable integer
    column [messages_count]. *)
Abbreviation user_table := (gmap (list N) (option Z)).

(** [User.messages_count.default.arg] *)
Definition messages_count_default : Z := 1.

(** [insert(User).values(name=name)]: the column default fills
    [messages_count]; a second row with the same primary key is refused. *)
Definition create (name : str) (users : user_table)
  : result unit * user_table :=
  match users !! name with
  | Some _ => (Raise IntegrityError, users)
  | None => (Ok tt, <[name := Some messages_count_default]> users)
  end.

(** [conn.scalar(select(User.messages_count).where(User.name == name))]:
    [None] when there is no row, else the column of the row. *)
Definition scalar_messages_count (name : str) (users : user_table)
  : option Z :=
  match users !! name with
  | Some count => count
  | None => None
  end.

Definition get_msg_count (name : str) (users : user_table)
  : result Z * user_table :=
  match scalar_messages_count name users with
  | None =>
      match create name users with
      | (Ok _, users') => (Ok messages_count_default, users')
      | (Raise e, users') => (Raise e, users')
      end
  | Some count => (Ok count, users)
  end.

(** [update(User).where(User.name == name).values(messages_count=User.messages_count - 1)].
    The column is an [INTEGER] of SQLite, of 64 bits: the subtraction is that
    of the integers as long as its result is not below [INTEGER_MIN], where
    SQLite goes over to floating point; the model follows the code down to
    that bound. *)
Definition decrease_messages_count (name : str) (users : user_table)
  : user_table :=
  alter (fun count => option_map (fun c => c - 1) count) name users.

(** The bounds of an [INTEGER] of SQLite. *)
Definition INTEGER_MIN : Z := - 2 ^ 63.
Definition INTEGER_MAX : Z := 2 ^ 63 - 1.

(** The same three functions on the [username] of a telegram user, which is
    [None] for a user without username. The key [name] is [NOT NULL]: no row
    has the name NULL, so that the [select] finds no row, the [insert] is
    refused and the [update] touches no row. *)
Definition create_for (username : option str) (users : user_table)
  : result unit * user_table :=
  match username with
  | Some name => create name users
  | None => (Raise IntegrityError, users)
  end.

Definition get_msg_count_for (username : option str) (users : user_table)
  : result Z * user_table :=
  match username with
  | Some name => get_msg_count name users
  | None =>
      match create_for None users with
      | (Ok _, users') => (Ok messages_count_default, users')
      | (Raise e, users') => (Raise e, users')
      end
  end.

Definition decrease_messages_count_for (username : option str)
  (users : user_table) : user_table :=
  match username with
  | Some name => decrease_messages_count name users
  | None => users
  end.

End User.

(** ** compile_text: the calls of [draw.text] *)

(** The calls [draw.text(counter, word, font=font.img, ...)] that made a
    picture, oldest first: position, text and font. *)
Fixpoint draw_calls (img : Image) : list ((float * Z) * str * Font) :=
  match img with
  | Image_new _ _ => []
  | Image_text img' xy text font _ => draw_calls img' ++ [(xy, text, font)]
  | Image_resize img' _ => draw_calls img'
  | Image_open _ _ => []
  end.

(** The ordinate of every word of a table drawn from the ordinate [y] with
    lines [h] apart. *)
Fixpoint line_ordinates (h y : Z) (tbl : list Line) : list Z :=
  match tbl with
  | [] => []
  | line :: tbl' => repeat y (length line) ++ line_ordinates h (y + h) tbl'
  end.

(** ** citizen_api.py: what reached the printer *)

Definition is_printer_command (ev : event) : bool :=
  match ev with
  | Call_compile_text _ => false
  | _ => true
  end.

Definition printer_commands (tr : list event) : list event :=
  List.filter is_printer_command tr.

(** The commands that print one image. *)
Definition image_commands (img : Image) : list event :=
  [Printer_image img; Printer_text [NL]].

(** ** db.py: the [Message] model *)

Module Message.

(** A row of the table [message]; [user_name] is a nullable column, and
    [img] stands for the BMP bytes [img.save(output, "BMP")] writes for that
    image. *)
Record row : Type := {
  id : Z;
  user_name : option str;
  text : option str;
  img : option Image;
}.

(** The rowid of an [INTEGER PRIMARY KEY] on insert: one more than the
    largest in use, [1] in an empty table. *)
Definition next_id (rows : list row) : Z :=
  match rows with
  | [] => 1
  | r :: rows' => 1 + fold_left Z.max (map id rows') (id r)
  end.

Section Create.

(** [bmp_writable img] tells whether [img.save(output, "BMP")] can write the
    image: the BMP writer of PIL raises [OSError] for an image in a mode it
    does not write. Which modes it writes is the affair of PIL. *)
Variable bmp_writable : Image -> bool.

Definition create (user_name : option str) (text : option str)
  (img : option Image) (rows : list row) : result unit * list row :=
  let stored :=
    rows ++ [{| id := next_id rows; user_name := user_name;
                text := text; img := img |}] in
  match img with
  | Some i => if bmp_writable i then (Ok tt, stored) else (Raise OSError, rows)
  | None => (Ok tt, stored)
  end.

End Create.

End Message.

(** ** tg_serve.py *)

Module tg.

(** A [PhotoSize]: [file_image] is the picture
    [Image.open(BytesIO(photo.get_file().download_as_bytearray()))] yields. *)
Record PhotoSize : Type := {
  file_image : Image;
}.

(** The attributes of a telegram [Message] the handlers read. *)
Record Message : Type := {
  message_id : Z;
  text : option str;
  caption : option str;
  photo : list PhotoSize;
}.

(** The attributes of an [Update] the handlers read. [effective_user] is
    [None] for an update without user, and else holds the [username] of
    [update.effective_user], which is [None] for a user without username;
    [as_str] is [str(update)]. *)
Record Update : Type := {
  message : option Message;
  edited_message : option Message;
  effective_message : option Message;
  effective_user : option (option str);
  as_str : str;
}.

(** What the bot sends: [message.reply_text(text, reply_to_message_id=...)]
    on the message [on], and [context.bot.send_message(chat_id, text)]. *)
Inductive sent : Type :=
| Reply_text (on : Z) (text : str) (reply_to_message_id : option Z)
| Send_message (chat_id : Z) (text : str).

End tg.

Definition MY_CHAT_ID : Z := 143185162.

(** The literal messages of the bot. *)
Definition NOTHING_TO_PRINT_MSG : str :=
  [1053; 1077; 1095; 1077; 1075; 1086; 32; 1087; 1077; 1095; 1072; 1090;
   1072; 1090; 1100; 46; 32; 128532]%N.

Definition NOTHING_TO_PRINT_LOG : str :=
  [1053; 1077; 1095; 1077; 1075; 1086; 32; 1087; 1077; 1095; 1072; 1090;
   1072; 1090; 1100; 32]%N.

Definition OUT_OF_ATTEMPTS_MSG : str :=
  [1059; 32; 1074; 1072; 1089; 32; 1079; 1072; 1082; 1086; 1085; 1095; 1080;
   1083; 1080; 1089; 1100; 32; 1087; 1086; 1087; 1099; 1090; 1082; 1080; 32;
   128533; 44; 32; 1085; 1072; 1087; 1080; 1096; 1080; 1090; 1077; 32; 64;
   122; 101; 115; 107; 98; 101; 115; 116]%N.

Definition PRINTED_MSG : str :=
  [1056; 1072; 1089; 1087; 1077; 1095; 1072; 1090; 1072; 1083; 33; 32;
   128515]%N.

(** What an f-string writes for a [username]. *)
Definition format_username (user_name : option str) : str :=
  match user_name with
  | Some name => name
  | None => py "None"
  end.

Definition HELLO_MSG (user_name : str) : str :=
  [1055; 1088; 1080; 1074; 1077; 1090; 44; 32; 64]%N ++ user_name ++
  [33; 10; 1047; 1072; 1075; 1083; 1103; 1085; 1080; 32; 1074; 32; 47; 104;
   101; 108; 112]%N.

(** The exceptions seen by the handlers: those of the modules below,
    [UnsupportedFormat], a subclass of [NothingToPrint], and the
    [AttributeError] of an attribute read on [None]. *)
Inductive tg_exn : Type :=
| Core (e : exn)
| UnsupportedFormat
| AttributeError.

(** [isinstance(e, NothingToPrint)], what [except NothingToPrint] catches. *)
Definition is_NothingToPrint (e : tg_exn) : bool :=
  match e with
  | Core NothingToPrint => true
  | UnsupportedFormat => true
  | _ => false
  end.

Inductive outcome (A : Type) : Type :=
| Done (a : A)
| Thrown (e : tg_exn).

Arguments Done {A} a.
Arguments Thrown {A} e.

(** The world of the bot: the two tables, the printer with the calls of the
    layout core, and the messages sent to telegram. *)
Record bot_state : Type := {
  users : gmap (list N) (option Z);
  messages : list Message.row;
  events : list event;
  outbox : list tg.sent;
}.

Definition bot (A : Type) : Type := bot_state -> outcome A * bot_state.

Definition bot_ret {A : Type} (a : A) : bot A := fun st => (Done a, st).

Definition bot_throw {A : Type} (e : tg_exn) : bot A := fun st => (Thrown e, st).

Definition bot_bind {A B : Type} (c : bot A) (k : A -> bot B) : bot B :=
  fun st =>
    match c st with
    | (Done a, st') => k a st'
    | (Thrown e, st') => (Thrown e, st')
    end.

Notation "'let+' x ':=' c 'in' k" := (bot_bind c (fun x => k))
  (at level 10, x pattern, c at level 100, k at level 200).

(** Reading an attribute of an object that may be [None]. *)
Definition attr_of {A : Type} (o : option A) : bot A :=
  match o with
  | Some a => bot_ret a
  | None => bot_throw AttributeError
  end.

Definition outcome_of {A : Type} (r : result A) : outcome A :=
  match r with
  | Ok a => Done a
  | Raise e => Thrown (Core e)
  end.

(** A call into [db.User] that may raise. *)
Definition on_users {A : Type}
  (f : gmap (list N) (option Z) -> result A * gmap (list N) (option Z))
  : bot A :=
  fun st =>
    let '(r, users') := f (users st) in
    (outcome_of r,
     {| users := users'; messages := messages st;
        events := events st; outbox := outbox st |}).

(** A call into [db.Message] that may raise. *)
Definition on_messages {A : Type}
  (f : list Message.row -> result A * list Message.row) : bot A :=
  fun st =>
    let '(r, messages') := f (messages st) in
    (outcome_of r,
     {| users := users st; messages := messages';
        events := events st; outbox := outbox st |}).

(** A call into [citizen_api]. *)
Definition on_printer {A : Type} (c : io A) : bot A :=
  fun st =>
    let '(r, events') := c (events st) in
    (outcome_of r,
     {| users := users st; messages := messages st;
        events := events'; outbox := outbox st |}).

Definition send (m : tg.sent) : bot unit :=
  fun st =>
    (Done tt,
     {| users := users st; messages := messages st;
        events := events st; outbox := outbox st ++ [m] |}).

(** [message.reply_text(text, reply_to_message_id=reply_to)] *)
Definition reply_text (m : tg.Message) (text : str) (reply_to : option Z)
  : bot unit :=
  send (tg.Reply_text (tg.message_id m) text reply_to).

(** [a or b] on two [Optional[str]]. *)
Definition text_or (a b : option str) : option str :=
  if text_truthy a then a else b.

Definition download_photo (photo : list tg.PhotoSize) : option Image :=
  match rev photo with
  | [] => None
  | target_photo :: _ => Some (tg.file_image target_photo)
  end.

(** The handlers. Their calls of [logger.debug] write to the log only and
    are left out. *)
Section TgServe.

Variable TEXT_PROCESSOR : TextProcessor.

(** The images [db.Message.create] can write as BMP. *)
Variable bmp_writable : Image -> bool.

Definition start (update : tg.Update) : bot unit :=
  let+ user_name := attr_of (tg.effective_user update) in
  let+ _ := on_users (User.create_for user_name) in
  let+ m := attr_of (tg.message update) in
  reply_text m (HELLO_MSG (format_username user_name)) None.

Definition save_and_print_msg (update : tg.Update) : bot unit :=
  let+ m := attr_of (tg.message update) in
  let img := download_photo (tg.photo m) in
  let text := text_or (tg.text m) (tg.caption m) in
  let+ user_name := attr_of (tg.effective_user update) in
  let+ _ :=
    on_printer
      (citizen_print_msg TEXT_PROCESSOR text img (format_username user_name)) in
  let+ _ :=
    on_users
      (fun users => (Ok tt, User.decrease_messages_count_for user_name users)) in
  on_messages (Message.create bmp_writable user_name text img).

Definition check_input (update : tg.Update) : bot unit :=
  let+ user_name := attr_of (tg.effective_user update) in
  let+ msgs_count := on_users (User.get_msg_count_for user_name) in
  match tg.message update with
  | None =>
      let+ _ :=
        match tg.edited_message update with
        | Some _ => bot_ret tt
        | None =>
            let+ em := attr_of (tg.effective_message update) in
            let+ _ := reply_text em NOTHING_TO_PRINT_MSG
                        (Some (tg.message_id em)) in
            send (tg.Send_message MY_CHAT_ID
                    (NOTHING_TO_PRINT_LOG ++ tg.as_str update))
        end in
      bot_throw UnsupportedFormat
  | Some m =>
      if msgs_count <=? 0 then
        let+ _ := reply_text m OUT_OF_ATTEMPTS_MSG (Some (tg.message_id m)) in
        bot_throw UnsupportedFormat
      else bot_ret tt
  end.

(** [try: c  except NothingToPrint: handler  else: otherwise] *)
Definition try_except_NothingToPrint {A B : Type} (c : bot A)
  (handler : bot B) (otherwise : A -> bot B) : bot B :=
  fun st =>
    match c st with
    | (Done a, st') => otherwise a st'
    | (Thrown e, st') =>
        if is_NothingToPrint e then handler st' else (Thrown e, st')
    end.

Definition respond (update : tg.Update) : bot unit :=
  try_except_NothingToPrint (check_input update)
    (bot_ret tt)
    (fun _ =>
       try_except_NothingToPrint (save_and_print_msg update)
         (let+ m := attr_of (tg.message update) in
          reply_text m NOTHING_TO_PRINT_MSG (Some (tg.message_id m)))
         (fun _ =>
            let+ m := attr_of (tg.message update) in
            reply_text m PRINTED_MSG (Some (tg.message_id m)))).

End TgServe.

(** ** Notions used by the properties *)

(** What the loop of [words] keeps true: every emitted word is the lone
    newline or a plain word, and the buffer is a plain word. *)
Definition words_inv (st : words_state) : Prop :=
  Forall (fun w : Word => fst w = [NL] \/ plain_word (fst w)) (ws_words st) /\
  plain_word (current_word st).

(** The shape every table of the loop of [word_table] has: a last line after
    lines that are all non-empty. *)
Definition table_ok {A : Type} (tbl : list (list A)) : Prop :=
  exists init cur, tbl = init ++ [cur] /\ Forall (fun l => l <> []) init.

(** The same, with a non-empty last line. *)
Definition table_filled {A : Type} (tbl : list (list A)) : Prop :=
  exists init cur,
    tbl = init ++ [cur] /\ Forall (fun l => l <> []) init /\ cur <> [].

(** The iteration of the forced split of [word], as a function of the state
    and the index: the body of [for idx in range(lines_count)]. *)
Definition split_iteration (self : TextProcessor) (word : str) (font : Font)
  (wpl k : Z) (st : table_state Word) (idx : Z) : result (table_state Word) :=
  let* st1 := newline self st in
  add_word wpl (slice word (idx * k) ((idx + 1) * k), font) st1.

(** The image of a result. *)
Definition result_map {A B : Type} (f : A -> B) (r : result A) : result B :=
  match r with
  | Ok a => Ok (f a)
  | Raise e => Raise e
  end.

(** A marked line without fragment fits the canvas, in the pixel length of
    the code. *)
Definition line_fits (self : TextProcessor) (line : list (Word * bool)) : Prop :=
  no_fragment line = true ->
  exists total,
    line_pixels code_word_pixels (map fst line) = Ok total /\
    total <= IMAGE_PIX_WIDTH self.

(** What the loop of [word_table] keeps true of the widths: the lines before
    the last one fit, and as long as the last line holds no fragment,
    [line_pix_len] is exactly the budget its words leave. *)
Definition width_inv (self : TextProcessor) (st : table_state (Word * bool))
  : Prop :=
  exists init cur,
    table st = init ++ [cur] /\
    Forall (line_fits self) init /\
    (no_fragment cur = true ->
     line_pixels code_word_pixels (map fst cur) =
       Ok (IMAGE_PIX_WIDTH self - line_pix_len st) /\
     0 <= line_pix_len st).

(** The sign of a float: everything but a negative number. *)
Definition float_nonneg (x : float) : Prop :=
  match x with
  | S754_finite true _ _ => False
  | _ => True
  end.

(** A computation that does not raise [NothingToPrint]. *)
Definition quiet {A : Type} (r : result A) : Prop := r <> Raise NothingToPrint.

Definition io_quiet {A : Type} (c : io A) : Prop :=
  forall tr, fst (c tr) <> Raise NothingToPrint.

(** A font whose metrics can be computed and divided by: a non-empty example
    string and a non-zero height. *)
Definition font_ok (f : Font) : Prop :=
  example f <> [] /\ letter_height f <> 0.

(** A processor on which the layout never divides by zero nor lacks a font. *)
Definition processor_ok (self : TextProcessor) : Prop :=
  fonts self <> [] /\ Forall font_ok (fonts self) /\ IMAGE_PIX_WIDTH self <> 0.

(** The characters [words] has seen so far: those of the emitted words, then
    the buffer. *)
Definition words_seen (st : words_state) : str :=
  concat (map fst (ws_words st)) ++ current_word st.

(** A table [user] without NULL in the column [messages_count]. *)
Definition no_null_count (users : gmap (list N) (option Z)) : Prop :=
  forall name, users !! name <> Some None.

(** A message, an update and a state of the bot for the examples. *)
Definition test_message : tg.Message :=
  {| tg.message_id := 7; tg.text := Some (py "hi"); tg.caption := None;
     tg.photo := [] |}.

Definition test_update : tg.Update :=
  {| tg.message := Some test_message; tg.edited_message := None;
     tg.effective_message := Some test_message;
     tg.effective_user := Some (Some (py "bob")); tg.as_str := py "update" |}.

Definition test_state (count : Z) : bot_state :=
  {| users := {[ py "bob" := Some count ]}; messages := [];
     events := []; outbox := [] |}.

Definition snowman_update : tg.Update :=
  {| tg.message :=
       Some {| tg.message_id := 7; tg.text := Some [9731%N];
               tg.caption := None; tg.photo := [] |};
     tg.edited_message := None; tg.effective_message := None;
     tg.effective_user := Some (Some (py "bob")); tg.as_str := [] |}.

(** The images of the examples are in a mode that BMP holds. *)
Definition test_bmp_writable (img : Image) : bool := true.

(** * Properties *)

(** ** The [result] monad and the loops *)

Lemma bind_Ok_inv {A B : Type} (r : result A) (k : A -> result B) (b : B) :
  bind r k = Ok b -> exists a, r = Ok a /\ k a = Ok b.
Proof. destruct r as [a|e]; simpl; [eauto | discriminate]. Qed.

Lemma bind_Raise_inv {A B : Type} (r : result A) (k : A -> result B) (e : exn) :
  bind r k = Raise e -> r = Raise e \/ exists a, r = Ok a /\ k a = Raise e.
Proof.
  destruct r as [a|e']; simpl; intros H; [right; eauto|].
  injection H as ->; now left.
Qed.

Lemma Ok_unique {A : Type} (r : result A) (a b : A) :
  r = Ok a -> r = Ok b -> a = b.
Proof. congruence. Qed.

Section ForEachFacts.

Context {A B : Type}.

Lemma for_each_app (body : B -> A -> result B) (xs ys : list A) (s : B) :
  for_each body (xs ++ ys) s = bind (for_each body xs s) (for_each body ys).
Proof.
  revert s; induction xs as [|x xs IH]; intros s; simpl; [reflexivity|].
  destruct (body s x); simpl; auto.
Qed.

(** A property kept by every successful iteration holds after the loop. *)
Lemma for_each_invariant (P : B -> Prop) (body : B -> A -> result B)
  (xs : list A) :
  (forall s x s', In x xs -> P s -> body s x = Ok s' -> P s') ->
  forall s s', P s -> for_each body xs s = Ok s' -> P s'.
Proof.
  induction xs as [|x xs IH]; intros Hstep s s' Hs Hrun; simpl in Hrun.
  - now inversion Hrun; subst.
  - apply bind_Ok_inv in Hrun as (s1 & H1 & H2).
    apply (IH (fun s0 y t Hy => Hstep s0 y t (or_intror Hy)) s1 s'); auto.
    apply (Hstep s x s1); simpl; auto.
Qed.

(** An exception of the loop is an exception of one of its iterations. *)
Lemma for_each_Raise_inv (body : B -> A -> result B) (xs : list A) (s : B)
  (e : exn) :
  for_each body xs s = Raise e -> exists s0 x, In x xs /\ body s0 x = Raise e.
Proof.
  revert s; induction xs as [|x xs IH]; intros s Hrun; simpl in Hrun.
  - discriminate.
  - apply bind_Raise_inv in Hrun as [H | (s1 & _ & H)].
    + exists s, x; simpl; auto.
    + destruct (IH _ H) as (s0 & y & Hy & Hb). exists s0, y; simpl; auto.
Qed.

(** A loop whose iterations all succeed succeeds. *)
Lemma for_each_total (P : B -> Prop) (body : B -> A -> result B) (xs : list A) :
  (forall s x, In x xs -> P s -> exists s', body s x = Ok s' /\ P s') ->
  forall s, P s -> exists s', for_each body xs s = Ok s' /\ P s'.
Proof.
  induction xs as [|x xs IH]; intros Hstep s Hs; simpl.
  - eauto.
  - destruct (Hstep s x (or_introl eq_refl) Hs) as (s1 & -> & Hs1); simpl.
    apply IH; auto. intros s0 y Hy; apply Hstep; simpl; auto.
Qed.

End ForEachFacts.

Lemma last_item_app {A : Type} (l : list A) (x : A) :
  last_item (l ++ [x]) = Ok x.
Proof.
  induction l as [|y l IH]; simpl; [reflexivity|].
  destruct (l ++ [x]) eqn:E; [now destruct l | exact IH].
Qed.

Lemma append_to_last_app {A : Type} (tbl : list (list A)) (line : list A)
  (item : A) :
  append_to_last (tbl ++ [line]) item = Ok (tbl ++ [line ++ [item]]).
Proof.
  induction tbl as [|l tbl IH]; simpl; [reflexivity|].
  destruct (tbl ++ [line]) eqn:E; [now destruct tbl|].
  rewrite IH; reflexivity.
Qed.

Lemma last_item_Ok_inv {A : Type} (l : list A) (x : A) :
  last_item l = Ok x -> exists l', l = l' ++ [x].
Proof.
  induction l as [|y l' _] using rev_ind; [discriminate|].
  rewrite last_item_app; intros [= ->]; eauto.
Qed.

(** ** Stripping *)

Lemma lstrip_all (chars s : str) :
  forallb (fun c => char_in c chars) s = true -> lstrip chars s = [].
Proof.
  induction s as [|c s IH]; simpl; [reflexivity|].
  intros H; apply andb_prop in H as [-> Hs]; auto.
Qed.

Lemma strip_all (chars s : str) :
  forallb (fun c => char_in c chars) s = true -> strip chars s = [].
Proof. intros H; unfold strip, rstrip; now rewrite (lstrip_all _ _ H). Qed.

(** ** C5: text without any token *)

(** C5. The specification says that a text that is empty or made of spaces
    and newlines only gives a table of one empty line and a canvas of one
    line height. The code raises instead: no token remains after stripping,
    and [words] reads [letters[0]] of the empty list, so [word_table] and
    [compile_text] both end with [IndexError]. *)
Theorem blank_text_raises_IndexError (self : TextProcessor) (text : str) :
  forallb (fun c => char_in c [SPACE; NL]) text = true ->
  letters self text = Ok [] /\
  word_table self text = Raise IndexError /\
  compile_text self text = Raise IndexError.
Proof.
  intros Hblank.
  assert (Hl : letters self text = Ok []).
  { unfold letters. now rewrite (strip_all _ _ Hblank). }
  unfold compile_text, word_table; rewrite Hl; simpl; auto.
Qed.

Lemma blank_text_raises_IndexError_witness :
  word_table (TextProcessor_init [FontA; FontB]) (py "  ") = Raise IndexError.
Proof.
  apply (blank_text_raises_IndexError (TextProcessor_init [FontA; FontB])
           (py "  ")).
  reflexivity.
Defined.

(** ** C4: the words of [words] *)

Section WordsFacts.

Lemma plain_nil : plain_word [].
Proof. split; simpl; tauto. Qed.

Lemma plain_singleton (c : N) : c <> NL -> plain_word [c].
Proof. intros Hc; split; simpl; intuition congruence. Qed.

Lemma plain_push (w : str) (c : N) :
  plain_word w -> c <> NL -> c <> SPACE -> plain_word (w ++ [c]).
Proof.
  intros [Hnl Hsp] Hc1 Hc2; split.
  - rewrite in_app_iff; simpl; intuition congruence.
  - destruct w as [|x w]; simpl in *; [tauto|].
    rewrite in_app_iff; simpl; intuition congruence.
Qed.

Lemma new_word_buffer (f : Font) (st : words_state) :
  current_word (new_word f st) = [].
Proof. unfold new_word; destruct (current_word st) eqn:E; simpl; auto. Qed.

Lemma new_word_font (f : Font) (st : words_state) :
  current_font (new_word f st) = current_font st.
Proof. unfold new_word; destruct (current_word st); reflexivity. Qed.

Lemma new_word_words (f : Font) (st : words_state) :
  ws_words (new_word f st) =
  ws_words st ++
    match current_word st with
    | [] => []
    | _ :: _ => [(current_word st, f)]
    end.
Proof.
  unfold new_word; destruct (current_word st); simpl;
    [now rewrite app_nil_r | reflexivity].
Qed.

Lemma new_word_inv (f : Font) (st : words_state) :
  words_inv st -> words_inv (new_word f st).
Proof.
  intros [Hws Hcw]; split.
  - rewrite new_word_words; apply Forall_app; split; [exact Hws|].
    destruct (current_word st); constructor; simpl; auto.
  - rewrite new_word_buffer; apply plain_nil.
Qed.

Lemma char_in_nl_space (c : N) :
  char_in c [NL; SPACE] = (N.eqb c NL || N.eqb c SPACE)%bool.
Proof. unfold char_in; simpl; now rewrite orb_false_r. Qed.

Lemma words_body_inv (st : words_state) (tok : Token) :
  words_inv st -> words_inv (words_body st tok).
Proof.
  intros Hst; destruct tok as [letter font]; unfold words_body.
  rewrite char_in_nl_space.
  destruct (N.eqb_spec letter NL) as [-> | Hnl]; simpl.
  - (* newline: the buffer is flushed, then the lone newline is emitted *)
    pose proof (new_word_inv (current_font st) st Hst) as [Hws _].
    split; [|now rewrite new_word_buffer; apply plain_nil].
    rewrite new_word_words; simpl. rewrite new_word_buffer; simpl.
    apply Forall_app; split; [exact Hws | constructor; simpl; auto].
  - destruct (N.eqb_spec letter SPACE) as [-> | Hsp].
    + (* space: the buffer is flushed and restarts with the space *)
      pose proof (new_word_inv (current_font st) st Hst) as [Hws _].
      pose proof (new_word_buffer (current_font st) st) as Hbuf.
      rewrite new_word_words in Hws.
      destruct (font_eqb _ font); split; simpl;
        rewrite ?new_word_words, ?new_word_buffer, ?Hbuf, ?app_nil_r;
        simpl; auto using plain_singleton.
    + (* any other letter *)
      destruct Hst as [Hws Hcw].
      destruct (font_eqb _ font); split; simpl; auto using plain_push.
      * rewrite new_word_words; apply Forall_app; split; [exact Hws|].
        destruct (current_word st); constructor; simpl; auto.
      * rewrite new_word_buffer; simpl; now apply plain_singleton.
Qed.

Lemma words_loop_inv (ls : list Token) (st : words_state) :
  words_inv st -> words_inv (fold_left words_body ls st).
Proof.
  revert st; induction ls as [|tok ls IH]; intros st Hst; simpl;
    auto using words_body_inv.
Qed.

Lemma words_plain (ls : list Token) (ws : list Word) :
  words ls = Ok ws ->
  Forall (fun w : Word => fst w = [NL] \/ plain_word (fst w)) ws.
Proof.
  unfold words; intros H; apply bind_Ok_inv in H as (tok & _ & H).
  injection H as <-.
  apply new_word_inv, words_loop_inv; split; [constructor | apply plain_nil].
Qed.

End WordsFacts.




(** ** C3: the tokens of [letters] *)

Section LettersFacts.

Variable self : TextProcessor.

Lemma find_first_supporting (fs : list Font) (c : N) (f : Font) :
  find (fun font => has_symbol font c) fs = Some f -> first_supporting fs c f.
Proof.
  induction fs as [|g fs IH]; simpl; [discriminate|].
  destruct (has_symbol g c) eqn:Hg.
  - intros [= ->]; exists [], fs; repeat split; auto.
  - intros H; destruct (IH H) as (before & after & -> & Hf & Hbefore).
    exists (g :: before), after; repeat split; auto.
Qed.

Lemma find_unsupported (fs : list Font) (c : N) :
  find (fun font => has_symbol font c) fs = None -> unsupported fs c.
Proof.
  induction fs as [|g fs IH]; simpl; [constructor|].
  destruct (has_symbol g c) eqn:Hg; [discriminate|].
  intros H; constructor; auto. now apply IH.
Qed.

Lemma letters_body_emits (acc : list Token) (c : N) :
  fonts self <> [] ->
  exists toks,
    emits (fonts self) c toks /\ letters_body self acc c = Ok (acc ++ toks).
Proof.
  intros Hne; unfold letters_body.
  destruct (find _ (fonts self)) as [f|] eqn:Hfind.
  - exists [(c, f)]; split; [|reflexivity].
    now apply emits_resolved, find_first_supporting.
  - apply find_unsupported in Hfind.
    destruct (N.eqb_spec c NL) as [-> | Hc].
    + destruct (fonts self) as [|f0 rest] eqn:Hfs; [contradiction|].
      exists [(NL, f0)]; split; [|reflexivity].
      now apply emits_newline with (rest := rest).
    + exists []; split; [now apply emits_dropped|].
      rewrite app_nil_r; now destruct (N.eqb c VS16).
Qed.

Lemma letters_loop_emits (cs : list N) (acc : list Token) :
  fonts self <> [] ->
  exists tokss,
    Forall2 (emits (fonts self)) cs tokss /\
    for_each (letters_body self) cs acc = Ok (acc ++ concat tokss).
Proof.
  intros Hne; revert acc; induction cs as [|c cs IH]; intros acc; simpl.
  - exists []; split; [constructor | now rewrite app_nil_r].
  - destruct (letters_body_emits acc c Hne) as (toks & Hem & ->); simpl.
    destruct (IH (acc ++ toks)) as (tokss & Hall & ->).
    exists (toks :: tokss); split; [now constructor|].
    simpl; now rewrite app_assoc.
Qed.

End LettersFacts.

Lemma first_supporting_unique (fs : list Font) (c : N) (f g : Font) :
  first_supporting fs c f -> first_supporting fs c g -> f = g.
Proof.
  intros (b1 & a1 & -> & Hf & H1) (b2 & a2 & E & Hg & H2).
  revert b2 E H2; induction b1 as [|x b1 IH]; intros b2 E H2.
  - destruct b2 as [|y b2]; simpl in E; [congruence|].
    injection E as -> _. inversion H2; congruence.
  - destruct b2 as [|y b2]; simpl in E.
    + injection E as -> _. inversion H1; congruence.
    + injection E as -> E. inversion H1; inversion H2; subst.
      apply (IH ltac:(assumption) b2 E); assumption.
Qed.

Lemma first_supporting_not_unsupported (fs : list Font) (c : N) (f : Font) :
  first_supporting fs c f -> ~ unsupported fs c.
Proof.
  intros (b & a & -> & Hf & _) Hun.
  apply Forall_app in Hun as [_ Hun]. inversion Hun; congruence.
Qed.

(** C3. With a non-empty font set, [letters] raises no error and returns, for
    the characters left after stripping spaces and newlines at both ends and
    in their order, the tokens the specification describes: a character with
    a supporting font gives one token tagged with the first such font in
    priority order; among the characters no font supports, the newline gives
    one token tagged with the first font of the set, and every other one,
    U+FE0F included, gives no token. These rules fix the tokens of every
    character. *)
Theorem letters_first_supporting_font (self : TextProcessor) (text : str) :
  fonts self <> [] ->
  (exists tokss,
      Forall2 (emits (fonts self)) (strip [SPACE; NL] text) tokss /\
      letters self text = Ok (concat tokss)) /\
  (forall c t1 t2,
      emits (fonts self) c t1 -> emits (fonts self) c t2 -> t1 = t2) /\
  (unsupported (fonts self) VS16 -> emits (fonts self) VS16 []).
Proof.
  intros Hne; split; [|split].
  - destruct (letters_loop_emits self (strip [SPACE; NL] text) [] Hne)
      as (tokss & Hall & Hrun).
    exists tokss; split; [exact Hall | exact Hrun].
  - intros c t1 t2 H1 H2.
    destruct H1 as [f Hf | f0 rest Hun -> Hfs | Hun Hc];
      destruct H2 as [g Hg | g0 rest' Hun' Hc' Hfs' | Hun' Hc'];
      try reflexivity; try congruence;
      try (exfalso; eapply first_supporting_not_unsupported; eassumption).
    now rewrite (first_supporting_unique _ _ _ _ Hf Hg).
  - intros Hun; apply emits_dropped; [exact Hun | discriminate].
Qed.

Lemma letters_first_supporting_font_witness :
  exists tokss,
    Forall2 (emits [FontA; FontB]) (py "a" ++ [VS16; 128131%N]) tokss /\
    letters TEST_PROCESSOR (py " a" ++ [VS16; 128131%N; NL]) = Ok (concat tokss).
Proof.
  apply (proj1 (letters_first_supporting_font TEST_PROCESSOR
                  (py " a" ++ [VS16; 128131%N; NL]) ltac:(discriminate))).
Defined.

(** ** The table operations of [word_table] *)

Section TableFacts.

Context {A : Type}.
Variable self : TextProcessor.

Lemma table_filled_ok (tbl : list (list A)) : table_filled tbl -> table_ok tbl.
Proof. intros (init & cur & -> & Hinit & _); exists init, cur; auto. Qed.

Lemma newline_app (st : table_state A) (init : list (list A)) (cur : list A) :
  table st = init ++ [cur] ->
  newline self st =
  Ok match cur with
     | [] => st
     | _ :: _ => {| table := table st ++ [[]];
                    line_pix_len := IMAGE_PIX_WIDTH self |}
     end.
Proof.
  intros E; unfold newline; rewrite E, last_item_app; simpl.
  now destruct cur.
Qed.

Lemma add_word_app (wpl : Z) (item : A) (st : table_state A)
  (init : list (list A)) (cur : list A) :
  table st = init ++ [cur] ->
  add_word wpl item st =
  Ok {| table := init ++ [cur ++ [item]];
        line_pix_len := line_pix_len st - wpl |}.
Proof. intros E; unfold add_word; now rewrite E, append_to_last_app. Qed.

Lemma append_to_last_Ok_inv (tbl t : list (list A)) (item : A) :
  append_to_last tbl item = Ok t ->
  exists init cur, tbl = init ++ [cur] /\ t = init ++ [cur ++ [item]].
Proof.
  induction tbl as [|cur init _] using rev_ind; [discriminate|].
  rewrite append_to_last_app; intros [= <-]; eauto.
Qed.

Lemma newline_ok (st : table_state A) :
  table_ok (table st) ->
  exists st', newline self st = Ok st' /\ table_ok (table st').
Proof.
  intros (init & cur & E & Hinit).
  rewrite (newline_app st init cur E).
  destruct cur as [|x cur]; eexists; split; try reflexivity.
  - exists init, []; auto.
  - simpl; rewrite E. exists (init ++ [x :: cur]), []; split; auto.
    apply Forall_app; split; auto.
Qed.

Lemma add_word_filled (wpl : Z) (item : A) (st : table_state A) :
  table_ok (table st) ->
  exists st', add_word wpl item st = Ok st' /\ table_filled (table st').
Proof.
  intros (init & cur & E & Hinit).
  rewrite (add_word_app wpl item st init cur E).
  eexists; split; [reflexivity|].
  exists init, (cur ++ [item]); simpl; repeat split; auto.
  now destruct cur.
Qed.

(** One iteration of the forced split, [newline()] then [add_word]. *)
Lemma newline_add_word_filled (wpl : Z) (item : A) (st : table_state A) :
  table_ok (table st) ->
  exists st',
    (let* st1 := newline self st in add_word wpl item st1) = Ok st' /\
    table_filled (table st').
Proof.
  intros Hok. destruct (newline_ok st Hok) as (st1 & -> & Hok1); simpl.
  now apply add_word_filled.
Qed.

(** The items of the table keep a property that every added item has. *)
Lemma newline_Forall (P : A -> Prop) (st st' : table_state A) :
  newline self st = Ok st' ->
  Forall (Forall P) (table st) -> Forall (Forall P) (table st').
Proof.
  unfold newline; intros H Hall.
  apply bind_Ok_inv in H as (cur & _ & H).
  destruct cur; injection H as <-; simpl; auto.
  apply Forall_app; split; auto.
Qed.

Lemma add_word_Forall (P : A -> Prop) (wpl : Z) (item : A)
  (st st' : table_state A) :
  add_word wpl item st = Ok st' -> P item ->
  Forall (Forall P) (table st) -> Forall (Forall P) (table st').
Proof.
  unfold add_word; intros H Hitem Hall.
  apply bind_Ok_inv in H as (t & Ht & H); injection H as <-; simpl.
  apply append_to_last_Ok_inv in Ht as (init & cur & E & ->).
  rewrite E in Hall; apply Forall_app in Hall as [Hinit Hcur].
  apply Forall_app; split; auto.
  inversion Hcur; subst. constructor; auto.
  apply Forall_app; split; auto.
Qed.

End TableFacts.

Lemma range_pos (n : Z) : 0 < n -> exists r, range n = 0 :: r.
Proof.
  intros Hn; unfold range.
  destruct (Z.to_nat n) as [|m] eqn:E; [lia|].
  simpl; eauto.
Qed.

Lemma firstn_In {A : Type} (n : nat) (l : list A) (x : A) :
  In x (firstn n l) -> In x l.
Proof.
  intros H; rewrite <- (firstn_skipn n l); apply in_or_app; now left.
Qed.

Lemma skipn_In {A : Type} (n : nat) (l : list A) (x : A) :
  In x (skipn n l) -> In x l.
Proof.
  intros H; rewrite <- (firstn_skipn n l); apply in_or_app; now right.
Qed.

Lemma slice_In {A : Type} (s : list A) (a b : Z) (x : A) :
  In x (slice s a b) -> In x s.
Proof. unfold slice; intros H; eapply skipn_In, firstn_In, H. Qed.

(** ** C9 and C6: the lines of the table *)

Section WordTableFacts.

Variable self : TextProcessor.

#[local] Abbreviation W := (IMAGE_PIX_WIDTH self).

Lemma split_iteration_filled (word : str) (font : Font) (wpl k : Z)
  (s s' : table_state Word) (idx : Z) :
  table_ok (table s) -> split_iteration self word font wpl k s idx = Ok s' ->
  table_filled (table s').
Proof.
  intros Hs Hit.
  destruct (newline_add_word_filled self wpl
              (slice word (idx * k) ((idx + 1) * k), font) s Hs)
    as (s2 & E2 & Hf).
  now rewrite (Ok_unique _ _ _ Hit E2).
Qed.

Lemma split_loop_ok (word : str) (font : Font) (wpl k : Z) (idxs : list Z)
  (st st' : table_state Word) :
  table_ok (table st) ->
  for_each (split_iteration self word font wpl k) idxs st = Ok st' ->
  table_ok (table st').
Proof.
  apply (for_each_invariant (fun s => table_ok (table s))).
  intros s x s' _ Hs Hit.
  eapply table_filled_ok, split_iteration_filled; eauto.
Qed.

Lemma split_loop_filled (word : str) (font : Font) (wpl k n : Z)
  (st st' : table_state Word) :
  0 < n -> table_ok (table st) ->
  for_each (split_iteration self word font wpl k) (range n) st = Ok st' ->
  table_filled (table st').
Proof.
  intros Hn Hok Hrun.
  destruct (range_pos n Hn) as (r & Er); rewrite Er in Hrun; simpl in Hrun.
  apply bind_Ok_inv in Hrun as (st1 & H1 & Hrun).
  apply (for_each_invariant (fun s => table_filled (table s))
           (split_iteration self word font wpl k) r) with (s := st1); auto.
  - intros s x s' _ Hs; apply split_iteration_filled; now apply table_filled_ok.
  - eapply split_iteration_filled; eauto.
Qed.

(** One iteration of the loop of [word_table] keeps the shape of the table,
    and leaves a non-empty last line unless the word is the lone newline. *)
Lemma word_table_body_shape (st st' : table_state Word) (w : Word) :
  table_ok (table st) ->
  word_table_body self st w = Ok st' ->
  table_ok (table st') /\ (0 < W -> fst w <> [NL] -> table_filled (table st')).
Proof.
  intros Hok Hrun; destruct w as [word font]; unfold word_table_body in Hrun.
  unfold str_eqb in Hrun; case_bool_decide as Hnl.
  - destruct (newline_ok self st Hok) as (s1 & E1 & H1).
    rewrite (Ok_unique _ _ _ Hrun E1); simpl; split; [auto | tauto].
  - apply bind_Ok_inv in Hrun as (wpl & Hwpl & Hrun).
    destruct (wpl <=? line_pix_len st).
    { destruct (add_word_filled wpl (word, font) st Hok) as (s1 & E1 & H1).
      rewrite (Ok_unique _ _ _ Hrun E1).
      split; auto using table_filled_ok. }
    destruct (wpl <=? W) eqn:Hfit.
    { destruct (newline_add_word_filled self wpl (word, font) st Hok)
        as (s1 & E1 & H1).
      rewrite (Ok_unique _ _ _ Hrun E1).
      split; auto using table_filled_ok. }
    apply bind_Ok_inv in Hrun as (q & Hq & Hrun).
    apply bind_Ok_inv in Hrun as (k & Hk & Hrun).
    change (for_each (split_iteration self word font wpl k) (range (q + 1)) st
            = Ok st') in Hrun.
    split; [eapply split_loop_ok; eauto|].
    intros HW _.
    apply (split_loop_filled word font wpl k (q + 1) st st'); auto.
    unfold floordiv in Hq; destruct (W =? 0); [discriminate|].
    injection Hq as <-. apply Z.leb_gt in Hfit.
    assert (0 <= (wpl - 1) / W) by (apply Z.div_pos; lia). lia.
Qed.

Lemma word_table_loop_ok (ws : list Word) (st st' : table_state Word) :
  table_ok (table st) ->
  for_each (word_table_body self) ws st = Ok st' ->
  table_ok (table st').
Proof.
  apply (for_each_invariant (fun s => table_ok (table s))).
  intros s x s' _ Hs Hb; now destruct (word_table_body_shape s s' x Hs Hb).
Qed.

Lemma word_table_init_ok {A : Type} : table_ok (table (@word_table_init self A)).
Proof. exists [], []; simpl; auto. Qed.

End WordTableFacts.

Lemma words_body_started (st : words_state) (tok : Token) :
  ws_words (words_body st tok) <> [] \/ current_word (words_body st tok) <> [].
Proof.
  destruct tok as [letter font]; unfold words_body.
  rewrite char_in_nl_space.
  destruct (N.eqb letter NL); simpl.
  - left. rewrite new_word_words; simpl. rewrite new_word_buffer; simpl.
    now destruct (ws_words (new_word (current_font st) st)).
  - destruct (N.eqb letter SPACE), (font_eqb _ font); right; simpl;
      match goal with |- ?b ++ [_] <> [] => now destruct b end.
Qed.

(** [words] returns at least one word whenever it returns. *)
Lemma words_nonempty (ls : list Token) (ws : list Word) :
  words ls = Ok ws -> ws <> [].
Proof.
  unfold words; intros H; apply bind_Ok_inv in H as (tok & Htok & H).
  injection H as <-.
  destruct ls as [|t ls _] using rev_ind; [discriminate|].
  rewrite fold_left_app; simpl.
  set (st := fold_left words_body ls _).
  rewrite new_word_words.
  destruct (words_body_started st t) as [Hw | Hb].
  - now destruct (ws_words (words_body st t)).
  - destruct (current_word (words_body st t)); [contradiction|].
    now destruct (ws_words (words_body st t)).
Qed.

(** C9. In every table [word_table] returns, every line but the last one is
    non-empty, so that no two consecutive lines are empty; and the last line
    is empty only when the last word processed is the lone newline. *)
Theorem word_table_inner_lines_nonempty (self : TextProcessor) (text : str)
  (tbl : list Line) :
  0 < IMAGE_PIX_WIDTH self ->
  word_table self text = Ok tbl ->
  exists init cur,
    tbl = init ++ [cur] /\
    Forall (fun l => l <> []) init /\
    (forall l1 a b l2, tbl = l1 ++ a :: b :: l2 -> ~ (a = [] /\ b = [])) /\
    (cur = [] ->
     exists ls ws f,
       letters self text = Ok ls /\ words ls = Ok (ws ++ [([NL], f)])).
Proof.
  intros HW Hrun; unfold word_table in Hrun.
  apply bind_Ok_inv in Hrun as (ls & Hls & Hrun).
  apply bind_Ok_inv in Hrun as (ws & Hws & Hrun).
  apply bind_Ok_inv in Hrun as (st & Hloop & Hrun); injection Hrun as <-.
  pose proof (word_table_loop_ok self ws _ st (word_table_init_ok self) Hloop)
    as (init & cur & E & Hinit).
  exists init, cur; repeat split; auto.
  - intros l1 a b l2 E' [-> _]. rewrite E in E'.
    destruct (@exists_last _ (b :: l2) ltac:(discriminate)) as (l2' & x & El).
    rewrite El in E'.
    change (l1 ++ [] :: l2' ++ [x]) with (l1 ++ ([] :: l2') ++ [x]) in E'.
    rewrite app_assoc in E'; apply app_inj_tail in E' as [-> _].
    apply Forall_app in Hinit as [_ Hinit]; inversion Hinit; congruence.
  - intros ->.
    pose proof (words_nonempty ls ws Hws) as Hne.
    destruct ws as [|[w f] ws' _] using rev_ind; [contradiction|].
    rewrite for_each_app in Hloop.
    apply bind_Ok_inv in Hloop as (st1 & Hloop1 & Hlast); simpl in Hlast.
    apply bind_Ok_inv in Hlast as (st2 & Hbody & Hst2); injection Hst2 as ->.
    pose proof (word_table_loop_ok self ws' _ st1 (word_table_init_ok self) Hloop1)
      as Hok1.
    destruct (word_table_body_shape self st1 st (w, f) Hok1 Hbody) as [_ Hfill].
    destruct (decide (w = [NL])) as [-> | Hw]; [now exists ls, ws', f|].
    destruct (Hfill HW Hw) as (init' & cur' & E' & _ & Hcur').
    rewrite E in E'; apply app_inj_tail in E' as [_ <-]; contradiction.
Qed.

Lemma word_table_inner_lines_nonempty_witness :
  exists init cur,
    [[(py "a", FontA)]; []] = init ++ [cur] /\
    Forall (fun l : Line => l <> []) init /\
    (forall l1 a b l2,
        [[(py "a", FontA)]; []] = l1 ++ a :: b :: l2 -> ~ (a = [] /\ b = [])) /\
    (cur = [] ->
     exists ls ws f,
       letters TEST_PROCESSOR (py "a" ++ [NL; 9731%N]) = Ok ls /\
       words ls = Ok (ws ++ [([NL], f)])).
Proof.
  apply (word_table_inner_lines_nonempty TEST_PROCESSOR
           (py "a" ++ [NL; 9731%N])).
  - reflexivity.
  - reflexivity.
Defined.

Section NoNewlineWord.

Variable self : TextProcessor.

#[local] Abbreviation no_nl := (fun w : Word => ~ In NL (fst w)).

Lemma word_table_body_no_nl (st st' : table_state Word) (w : Word) :
  fst w = [NL] \/ plain_word (fst w) ->
  word_table_body self st w = Ok st' ->
  Forall (Forall no_nl) (table st) -> Forall (Forall no_nl) (table st').
Proof.
  intros Hw Hrun Hall; destruct w as [word font]; simpl in Hw.
  unfold word_table_body, str_eqb in Hrun; case_bool_decide as Hnl.
  - eapply newline_Forall; eauto.
  - destruct Hw as [Hw | [Hplain _]]; [contradiction|].
    apply bind_Ok_inv in Hrun as (wpl & _ & Hrun).
    destruct (wpl <=? line_pix_len st).
    { eapply add_word_Forall; eauto. }
    destruct (wpl <=? IMAGE_PIX_WIDTH self).
    { apply bind_Ok_inv in Hrun as (st1 & Hn & Ha).
      eapply add_word_Forall; eauto. eapply newline_Forall; eauto. }
    apply bind_Ok_inv in Hrun as (q & _ & Hrun).
    apply bind_Ok_inv in Hrun as (k & _ & Hrun).
    revert Hrun Hall.
    generalize (range (q + 1)); intros idxs Hrun Hall.
    eapply (for_each_invariant (fun s => Forall (Forall no_nl) (table s)));
      [|exact Hall|exact Hrun].
    intros s idx s' _ Hs Hit.
    apply bind_Ok_inv in Hit as (s1 & Hn & Ha).
    eapply add_word_Forall; [exact Ha| |eapply newline_Forall; eauto].
    simpl; intros Hin; apply Hplain; eapply slice_In; exact Hin.
Qed.

Lemma word_table_no_nl (text : str) (tbl : list Line) :
  word_table self text = Ok tbl -> Forall (Forall no_nl) tbl.
Proof.
  unfold word_table; intros Hrun.
  apply bind_Ok_inv in Hrun as (ls & Hls & Hrun).
  apply bind_Ok_inv in Hrun as (ws & Hws & Hrun).
  apply bind_Ok_inv in Hrun as (st & Hloop & Hrun); injection Hrun as <-.
  pose proof (words_plain ls ws Hws) as Hplain.
  rewrite List.Forall_forall in Hplain.
  eapply (for_each_invariant (fun s => Forall (Forall no_nl) (table s)));
    [|idtac|exact Hloop].
  - intros s x s' Hx Hs Hb.
    eapply word_table_body_no_nl; eauto.
  - simpl; repeat constructor.
Qed.

End NoNewlineWord.

(** C6. The text ["ab\ncd"] in the test font set gives exactly the two lines
    [["ab"]] and [["cd"]]. In every table [word_table] returns, no line holds
    the newline word; and the newline word only runs [newline()], which
    leaves the table as it is when its last line is empty and opens a new
    empty line, with the full pixel budget, when it is not. *)
Theorem newline_word_starts_new_line :
  word_table TEST_PROCESSOR (py "ab" ++ [NL] ++ py "cd") =
    Ok [[(py "ab", FontA)]; [(py "cd", FontA)]] /\
  (forall (self : TextProcessor) (text : str) (tbl : list Line) (line : Line)
          (w : str) (f : Font),
      word_table self text = Ok tbl -> In line tbl -> In (w, f) line ->
      w <> [NL]) /\
  (forall (self : TextProcessor) (st : table_state Word) (f : Font)
          (init : list Line) (cur : Line),
      table st = init ++ [cur] ->
      word_table_body self st ([NL], f) =
      Ok match cur with
         | [] => st
         | _ :: _ => {| table := table st ++ [[]];
                        line_pix_len := IMAGE_PIX_WIDTH self |}
         end).
Proof.
  split; [reflexivity | split].
  - intros self text tbl line w f Hrun Hline Hw ->.
    pose proof (word_table_no_nl self text tbl Hrun) as Hall.
    rewrite List.Forall_forall in Hall; specialize (Hall line Hline).
    rewrite List.Forall_forall in Hall; apply (Hall _ Hw); simpl; auto.
  - intros self st f init cur E.
    unfold word_table_body, str_eqb; rewrite bool_decide_eq_true_2 by reflexivity.
    exact (newline_app self st init cur E).
Qed.

Lemma newline_word_starts_new_line_witness :
  word_table_body TEST_PROCESSOR
    {| table := [[(py "ab", FontA)]]; line_pix_len := 79 |} ([NL], FontA) =
  Ok {| table := [[(py "ab", FontA)]; []]; line_pix_len := 100 |}.
Proof.
  apply (proj2 (proj2 newline_word_starts_new_line) TEST_PROCESSOR
           {| table := [[(py "ab", FontA)]]; line_pix_len := 79 |} FontA
           [] [(py "ab", FontA)]).
  reflexivity.
Defined.

(** ** C2: the forced split *)

Lemma ceil_div_floordiv (a b : Z) : 0 < b -> (a - 1) / b + 1 = ceil_div a b.
Proof.
  intros Hb; unfold ceil_div, Qceiling.
  assert (E : (- (inject_Z a / inject_Z b) == inject_Z (- a) / inject_Z b)%Q).
  { rewrite inject_Z_opp. unfold Qdiv; ring. }
  rewrite E, <- Zdiv_Qdiv.
  pose proof (Z.div_mod (a - 1) b ltac:(lia)) as Hdm.
  pose proof (Z.mod_pos_bound (a - 1) b Hb) as Hr.
  assert (Hq : (- a) / b = - ((a - 1) / b) - 1).
  { symmetry; apply (Z.div_unique_pos (- a) b _ (b - (a - 1) mod b - 1)); lia. }
  lia.
Qed.

Lemma slice_next {A : Type} (s : list A) (i k : Z) :
  0 <= i -> 0 <= k ->
  slice s (i * k) ((i + 1) * k) =
  firstn (Z.to_nat k) (skipn (Z.to_nat (i * k)) s).
Proof.
  intros Hi Hk; unfold slice, slice_bound, len.
  assert (Ha : 0 <= i * k) by lia.
  replace ((i + 1) * k) with (i * k + k) by lia.
  destruct (Z.ltb_spec (i * k) 0) as [|_]; [lia|].
  destruct (Z.ltb_spec (i * k + k) 0) as [|_]; [lia|].
  destruct (Z_lt_le_dec (i * k) (Z.of_nat (length s))) as [Hlt | Hge].
  - rewrite (Z.min_l (i * k)) by lia.
    destruct (Z_le_gt_dec (i * k + k) (Z.of_nat (length s))) as [Hle | Hgt].
    + rewrite Z.min_l by lia. f_equal; lia.
    + rewrite Z.min_r by lia.
      rewrite !firstn_all2; auto; rewrite length_skipn; lia.
  - rewrite (Z.min_r (i * k)) by lia.
    rewrite !skipn_all2 by lia. now rewrite !firstn_nil.
Qed.

Section ForcedSplit.

Variable self : TextProcessor.
Variables (word : str) (font : Font) (wpl k : Z).

#[local] Abbreviation fragment_line :=
  (fun idx : Z => [(slice word (idx * k) ((idx + 1) * k), font)]).

(** From a table whose last line is not empty, every iteration of the forced
    split opens a line and puts its fragment alone on it. *)
Lemma split_loop_table (idxs : list Z) (st : table_state Word)
  (init : list Line) (cur : Line) :
  table st = init ++ [cur] -> cur <> [] ->
  exists st',
    for_each (split_iteration self word font wpl k) idxs st = Ok st' /\
    table st' = init ++ cur :: map fragment_line idxs.
Proof.
  revert st init cur; induction idxs as [|idx idxs IH];
    intros st init cur E Hcur; simpl.
  - eauto.
  - unfold split_iteration at 1.
    rewrite (newline_app self st init cur E).
    destruct cur as [|x cur]; [contradiction|]; simpl.
    rewrite (add_word_app _ _ _ (table st) []) by reflexivity; simpl.
    edestruct IH as (st' & -> & Et); [reflexivity | discriminate |].
    exists st'; split; [reflexivity|].
    rewrite Et; simpl. now rewrite E, <- app_assoc.
Qed.

(** The same from any table: an empty last line receives the first fragment. *)
Lemma split_loop_table_any (n : Z) (st : table_state Word)
  (init : list Line) (cur : Line) :
  0 < n -> table st = init ++ [cur] ->
  exists st',
    for_each (split_iteration self word font wpl k) (range n) st = Ok st' /\
    table st' =
      match cur with [] => init | _ :: _ => init ++ [cur] end ++
      map fragment_line (range n).
Proof.
  intros Hn E. destruct cur as [|x cur].
  - destruct (range_pos n Hn) as (r & ->); simpl.
    unfold split_iteration at 1.
    rewrite (newline_app self st init [] E); simpl.
    rewrite (add_word_app _ _ _ init [] E); simpl.
    edestruct (split_loop_table r) as (st' & -> & Et);
      [reflexivity | discriminate |].
    exists st'; split; [reflexivity | exact Et].
  - destruct (split_loop_table (range n) st init (x :: cur) E ltac:(discriminate))
      as (st' & -> & Et).
    exists st'; split; [reflexivity|]. now rewrite Et, <- app_assoc.
Qed.

End ForcedSplit.

(** C2, as the code has it. A word whose pixel length [word_pixels], the one
    the code computes, [int(len(word) * font.letter_width + 1)], exceeds the
    canvas width [W] is split into exactly [ceil(word_pixels / W)] fragments
    (at least two), the fragment of index [i] being the next
    [floor(W / letter_height)] characters of the word after the first
    [i * floor(W / letter_height)], each alone on a line of its own, in
    order, after the lines already filled. The word of 30 letters [m] in Font A at [W = 100] has
    [word_pixels = 301] and gives the four lines ["mmmmm"]: the last 10
    letters are lost. *)
Theorem forced_split_fragments :
  (forall (self : TextProcessor) (st : table_state Word) (word : str)
          (font : Font) (init : list Line) (cur : Line) (word_pixels : Z),
      0 < IMAGE_PIX_WIDTH self -> 0 < letter_height font ->
      table st = init ++ [cur] -> line_pix_len st <= IMAGE_PIX_WIDTH self ->
      word <> [NL] ->
      word_pix_length_of word font = Ok word_pixels ->
      IMAGE_PIX_WIDTH self < word_pixels ->
      let k := IMAGE_PIX_WIDTH self / letter_height font in
      let n := ceil_div word_pixels (IMAGE_PIX_WIDTH self) in
      2 <= n /\
      exists st',
        word_table_body self st (word, font) = Ok st' /\
        table st' =
          match cur with [] => init | _ :: _ => init ++ [cur] end ++
          map (fun i : nat =>
                 [(firstn (Z.to_nat k) (skipn (i * Z.to_nat k) word), font)])
              (seq 0 (Z.to_nat n))) /\
  word_pix_length_of (repeat 109%N 30) FontA = Ok 301 /\
  word_table TEST_PROCESSOR (repeat 109%N 30) =
    Ok [[(py "mmmmm", FontA)]; [(py "mmmmm", FontA)];
        [(py "mmmmm", FontA)]; [(py "mmmmm", FontA)]].
Proof.
  split; [|split; reflexivity].
  intros self st word font init cur wpl HW Hlh E Hlpl Hnl Hwpl Hbig k n.
  assert (Hn : n = (wpl - 1) / IMAGE_PIX_WIDTH self + 1).
  { subst n; symmetry; now apply ceil_div_floordiv. }
  assert (Hn2 : 2 <= n).
  { rewrite Hn.
    assert (1 <= (wpl - 1) / IMAGE_PIX_WIDTH self)
      by (apply Z.div_le_lower_bound; lia). lia. }
  split; [exact Hn2|].
  destruct (split_loop_table_any self word font wpl k n st init cur
              ltac:(lia) E) as (st' & Hrun & Et).
  exists st'; split.
  - unfold word_table_body, str_eqb.
    rewrite bool_decide_eq_false_2 by exact Hnl.
    rewrite Hwpl; simpl.
    replace (wpl <=? line_pix_len st) with false by (symmetry; apply Z.leb_gt; lia).
    replace (wpl <=? IMAGE_PIX_WIDTH self) with false
      by (symmetry; apply Z.leb_gt; lia).
    unfold floordiv.
    replace (IMAGE_PIX_WIDTH self =? 0) with false by (symmetry; apply Z.eqb_neq; lia).
    replace (letter_height font =? 0) with false by (symmetry; apply Z.eqb_neq; lia).
    simpl. rewrite <- Hn. exact Hrun.
  - rewrite Et; f_equal. unfold range; rewrite map_map.
    apply map_ext; intros i.
    assert (Hk : 0 <= k) by (apply Z.div_pos; lia).
    rewrite slice_next by lia.
    repeat f_equal. lia.
Qed.

Lemma forced_split_fragments_witness :
  2 <= ceil_div 301 100 /\
  exists st',
    word_table_body TEST_PROCESSOR (word_table_init TEST_PROCESSOR)
      (repeat 109%N 30, FontA) = Ok st' /\
    table st' =
      [] ++ map (fun i : nat =>
                   [(firstn (Z.to_nat (100 / 20))
                       (skipn (i * Z.to_nat (100 / 20)) (repeat 109%N 30)),
                     FontA)])
              (seq 0 (Z.to_nat (ceil_div 301 100))).
Proof.
  apply (proj1 forced_split_fragments TEST_PROCESSOR
           (word_table_init TEST_PROCESSOR) (repeat 109%N 30) FontA [] [] 301).
  - reflexivity.
  - reflexivity.
  - reflexivity.
  - simpl; lia.
  - discriminate.
  - reflexivity.
  - reflexivity.
Defined.

(** C2 as the specification states it fails, when [word_pixels] is the pixel
    length of the specification, [ceil(len(word) * font.letter_width) + 1]:
    with [letter_width = 129.5] a word of 21 letters has
    [ceil(2719.5) + 1 = 2721 > W = 2720] and would be split into
    [ceil(2721 / 2720) = 2] fragments of [floor(2720 / 140) = 19] letters,
    while the code measures [int(2719.5 + 1) = 2720] and puts the word whole
    on the line. *)
Lemma forced_split_fails_for_ceiling :
  ~ (forall (self : TextProcessor) (st : table_state Word) (word : str)
            (font : Font) (init : list Line) (cur : Line) (word_pixels : Z),
        0 < IMAGE_PIX_WIDTH self -> 0 < letter_height font ->
        table st = init ++ [cur] -> line_pix_len st <= IMAGE_PIX_WIDTH self ->
        word <> [NL] ->
        spec_word_pixels (word, font) = Ok word_pixels ->
        IMAGE_PIX_WIDTH self < word_pixels ->
        let k := IMAGE_PIX_WIDTH self / letter_height font in
        let n := ceil_div word_pixels (IMAGE_PIX_WIDTH self) in
        exists st',
          word_table_body self st (word, font) = Ok st' /\
          table st' =
            match cur with [] => init | _ :: _ => init ++ [cur] end ++
            map (fun i : nat =>
                   [(firstn (Z.to_nat k) (skipn (i * Z.to_nat k) word), font)])
                (seq 0 (Z.to_nat n))).
Proof.
  intros H.
  destruct (H (TextProcessor_init [FontC])
              (word_table_init (TextProcessor_init [FontC]))
              (repeat 109%N 21) FontC [] [] 2721)
    as (st' & Hrun & Htable).
  - reflexivity.
  - reflexivity.
  - reflexivity.
  - simpl; lia.
  - discriminate.
  - vm_compute; reflexivity.
  - reflexivity.
  - vm_compute in Hrun. injection Hrun as <-.
    vm_compute in Htable. discriminate Htable.
Qed.

(** ** C1: the width of the lines *)

(** Forgetting the marks commutes with the loop of [word_table]. *)
Section Unmark.

Variable self : TextProcessor.

Lemma last_item_map {A B : Type} (f : A -> B) (l : list A) :
  last_item (map f l) = result_map f (last_item l).
Proof.
  destruct l as [|x l _] using rev_ind; [reflexivity|].
  rewrite map_app; simpl. now rewrite !last_item_app.
Qed.

Lemma append_to_last_map {A B : Type} (f : A -> B) (tbl : list (list A))
  (item : A) :
  append_to_last (map (map f) tbl) (f item) =
  result_map (map (map f)) (append_to_last tbl item).
Proof.
  destruct tbl as [|cur init _] using rev_ind; [reflexivity|].
  rewrite map_app; simpl. rewrite !append_to_last_app; simpl.
  rewrite map_app; simpl. now rewrite map_app.
Qed.

Lemma newline_unmark (st : table_state (Word * bool)) :
  newline self (unmark_state st) = result_map unmark_state (newline self st).
Proof.
  unfold newline, unmark_state at 1; simpl. unfold unmark at 1.
  rewrite last_item_map.
  destruct (last_item (table st)) as [cur|e]; simpl; [|reflexivity].
  destruct cur; simpl; [reflexivity|].
  unfold unmark_state, unmark; simpl. now rewrite map_app.
Qed.

Lemma add_word_unmark (wpl : Z) (item : Word * bool)
  (st : table_state (Word * bool)) :
  add_word wpl (fst item) (unmark_state st) =
  result_map unmark_state (add_word wpl item st).
Proof.
  unfold add_word, unmark_state at 1; simpl. unfold unmark at 1.
  rewrite append_to_last_map.
  now destruct (append_to_last (table st) item).
Qed.

Lemma newline_add_word_unmark (wpl : Z) (item : Word * bool)
  (st : table_state (Word * bool)) :
  (let* st1 := newline self (unmark_state st) in add_word wpl (fst item) st1) =
  result_map unmark_state (let* st1 := newline self st in add_word wpl item st1).
Proof.
  rewrite newline_unmark.
  destruct (newline self st) as [st1|e]; simpl; [|reflexivity].
  apply add_word_unmark.
Qed.

Lemma for_each_unmark {X : Type}
  (body : table_state Word -> X -> result (table_state Word))
  (body_marked :
     table_state (Word * bool) -> X -> result (table_state (Word * bool)))
  (xs : list X) :
  (forall st x,
      body (unmark_state st) x = result_map unmark_state (body_marked st x)) ->
  forall st,
    for_each body xs (unmark_state st) =
    result_map unmark_state (for_each body_marked xs st).
Proof.
  intros Hbody; induction xs as [|x xs IH]; intros st; simpl; [reflexivity|].
  rewrite Hbody. destruct (body_marked st x) as [st1|e]; simpl; auto.
Qed.

Lemma word_table_body_unmark (st : table_state (Word * bool)) (w : Word) :
  word_table_body self (unmark_state st) w =
  result_map unmark_state (word_table_body_marked self st w).
Proof.
  destruct w as [word font]; unfold word_table_body, word_table_body_marked.
  destruct (str_eqb word [NL]); [apply newline_unmark|].
  destruct (word_pix_length_of word font) as [wpl|e]; simpl; [|reflexivity].
  destruct (wpl <=? line_pix_len st).
  { exact (add_word_unmark wpl ((word, font), false) st). }
  destruct (wpl <=? IMAGE_PIX_WIDTH self).
  { exact (newline_add_word_unmark wpl ((word, font), false) st). }
  destruct (floordiv (wpl - 1) (IMAGE_PIX_WIDTH self)) as [q|e]; simpl;
    [|reflexivity].
  destruct (floordiv (IMAGE_PIX_WIDTH self) (letter_height font)) as [k|e];
    simpl; [|reflexivity].
  apply for_each_unmark; intros s idx.
  exact (newline_add_word_unmark wpl
           ((slice word (idx * k) ((idx + 1) * k), font), true) s).
Qed.

Lemma word_table_unmark (text : str) :
  word_table self text = result_map unmark (word_table_marked self text).
Proof.
  unfold word_table, word_table_marked.
  destruct (letters self text) as [ls|e]; simpl; [|reflexivity].
  destruct (words ls) as [ws|e]; simpl; [|reflexivity].
  change (@word_table_init self Word)
    with (unmark_state (@word_table_init self (Word * bool))).
  rewrite (for_each_unmark _ _ ws word_table_body_unmark).
  now destruct (for_each (word_table_body_marked self) ws _).
Qed.

End Unmark.

Lemma line_pixels_snoc (pix : Word -> result Z) (line : Line) (w : Word) :
  line_pixels pix (line ++ [w]) =
  let* total := line_pixels pix line in
  let* p := pix w in Ok (total + p).
Proof.
  unfold line_pixels; rewrite for_each_app; simpl.
  destruct (for_each _ line 0) as [total|e]; simpl; [|reflexivity].
  now destruct (pix w).
Qed.

Lemma no_fragment_snoc (line : list (Word * bool)) (it : Word * bool) :
  no_fragment (line ++ [it]) = (no_fragment line && negb (snd it))%bool.
Proof. unfold no_fragment; rewrite forallb_app; simpl. now rewrite andb_true_r. Qed.

Section WidthInvariant.

Variable self : TextProcessor.
Hypothesis W_nonneg : 0 <= IMAGE_PIX_WIDTH self.

#[local] Abbreviation W := (IMAGE_PIX_WIDTH self).

Lemma width_inv_init : width_inv self (word_table_init self).
Proof.
  exists [], []; simpl; repeat split; auto.
  unfold line_pixels; simpl; now rewrite Z.sub_diag.
Qed.

(** After [newline()] the whole budget is available. *)
Lemma newline_width_inv (st st' : table_state (Word * bool)) :
  width_inv self st -> newline self st = Ok st' ->
  width_inv self st' /\ line_pix_len st' = W.
Proof.
  intros (init & cur & E & Hinit & Hcur) Hrun.
  rewrite (newline_app self st init cur E) in Hrun; injection Hrun as <-.
  destruct cur as [|x cur].
  - destruct (Hcur eq_refl) as [Hsum Hpos].
    unfold line_pixels in Hsum; simpl in Hsum; injection Hsum as Hsum.
    split; [|lia]. exists init, []; auto.
  - simpl; split; [|reflexivity].
    exists (init ++ [x :: cur]), []; simpl; repeat split; auto;
      [now rewrite E | | unfold line_pixels; simpl; now rewrite Z.sub_diag].
    apply Forall_app; split; [exact Hinit|].
    constructor; [|constructor].
    intros Hnf; destruct (Hcur Hnf) as [Hsum Hpos].
    eexists; split; [exact Hsum | lia].
Qed.

(** A word placed whole, when it fits the budget left. *)
Lemma add_whole_width_inv (st st' : table_state (Word * bool)) (word : str)
  (font : Font) (wpl : Z) :
  width_inv self st ->
  word_pix_length_of word font = Ok wpl -> wpl <= line_pix_len st ->
  add_word wpl ((word, font), false) st = Ok st' ->
  width_inv self st'.
Proof.
  intros (init & cur & E & Hinit & Hcur) Hwpl Hfit Hrun.
  rewrite (add_word_app _ _ st init cur E) in Hrun; injection Hrun as <-.
  exists init, (cur ++ [((word, font), false)]); simpl; repeat split; auto.
  - rewrite no_fragment_snoc in H; apply andb_prop in H as [Hnf _].
    destruct (Hcur Hnf) as [Hsum _].
    rewrite map_app; simpl. rewrite line_pixels_snoc, Hsum; simpl.
    unfold code_word_pixels; simpl; rewrite Hwpl; simpl. f_equal; lia.
  - rewrite no_fragment_snoc in H; apply andb_prop in H as [Hnf _].
    destruct (Hcur Hnf) as [_ Hpos]. lia.
Qed.

(** A fragment: its line is exempt from then on. *)
Lemma add_fragment_width_inv (st st' : table_state (Word * bool)) (w : Word)
  (wpl : Z) :
  width_inv self st -> add_word wpl (w, true) st = Ok st' -> width_inv self st'.
Proof.
  intros (init & cur & E & Hinit & Hcur) Hrun.
  rewrite (add_word_app _ _ st init cur E) in Hrun; injection Hrun as <-.
  exists init, (cur ++ [(w, true)]); simpl; repeat split; auto;
    rewrite no_fragment_snoc in H; simpl in H;
    rewrite andb_false_r in H; discriminate.
Qed.

Lemma word_table_body_marked_width_inv (st st' : table_state (Word * bool))
  (w : Word) :
  width_inv self st -> word_table_body_marked self st w = Ok st' ->
  width_inv self st'.
Proof.
  intros Hinv Hrun; destruct w as [word font].
  unfold word_table_body_marked in Hrun.
  destruct (str_eqb word [NL]).
  { now destruct (newline_width_inv st st' Hinv Hrun). }
  apply bind_Ok_inv in Hrun as (wpl & Hwpl & Hrun).
  destruct (Z.leb_spec wpl (line_pix_len st)) as [Hfit | _].
  { eapply add_whole_width_inv; eauto. }
  destruct (Z.leb_spec wpl W) as [HfitW | _].
  { apply bind_Ok_inv in Hrun as (st1 & Hn & Ha).
    destruct (newline_width_inv st st1 Hinv Hn) as [Hinv1 Hlpl].
    eapply add_whole_width_inv; eauto. lia. }
  apply bind_Ok_inv in Hrun as (q & _ & Hrun).
  apply bind_Ok_inv in Hrun as (k & _ & Hrun).
  eapply (for_each_invariant (width_inv self)); [|exact Hinv|exact Hrun].
  intros s idx s' _ Hs Hit.
  apply bind_Ok_inv in Hit as (s1 & Hn & Ha).
  destruct (newline_width_inv s s1 Hs Hn) as [Hinv1 _].
  eapply add_fragment_width_inv; eauto.
Qed.

Lemma word_table_marked_fits (text : str) (tbl : list (list (Word * bool))) :
  word_table_marked self text = Ok tbl -> Forall (line_fits self) tbl.
Proof.
  unfold word_table_marked; intros Hrun.
  apply bind_Ok_inv in Hrun as (ls & _ & Hrun).
  apply bind_Ok_inv in Hrun as (ws & _ & Hrun).
  apply bind_Ok_inv in Hrun as (st & Hloop & Hrun); injection Hrun as <-.
  assert (Hinv : width_inv self st).
  { eapply (for_each_invariant (width_inv self));
      [|exact width_inv_init|exact Hloop].
    intros s x s' _; apply word_table_body_marked_width_inv. }
  destruct Hinv as (init & cur & -> & Hinit & Hcur).
  apply Forall_app; split; [exact Hinit|].
  constructor; [|constructor].
  intros Hnf; destruct (Hcur Hnf) as [Hsum Hpos].
  eexists; split; [exact Hsum | lia].
Qed.

End WidthInvariant.

(** C1, as the code has it. In the table [word_table] returns, every line
    without forced-split fragment has a total pixel length of at most the
    canvas width [W], where the pixel length of a word is the one the code
    computes, [int(len(word) * font.letter_width + 1)] in the arithmetic of
    the floats, and not [ceil(len(word) * font.letter_width) + 1]. The marks
    of the ghost table tell the fragments; forgetting them gives the table of
    [word_table]. The measure is the one of the floats: 15 letters of average
    width [995 / 15] measure 995 pixels, the product being the float just
    below 995. *)
Theorem word_table_width_bound (self : TextProcessor) (text : str)
  (tbl : list (list (Word * bool))) :
  0 <= IMAGE_PIX_WIDTH self ->
  word_table_marked self text = Ok tbl ->
  word_table self text = Ok (unmark tbl) /\
  (forall line,
      In line tbl -> no_fragment line = true ->
      exists total,
        line_pixels code_word_pixels (map fst line) = Ok total /\
        total <= IMAGE_PIX_WIDTH self) /\
  code_word_pixels (repeat 109%N 15, FontD) = Ok 995.
Proof.
  intros HW Hrun; split; [|split].
  - now rewrite word_table_unmark, Hrun.
  - intros line Hline.
    pose proof (word_table_marked_fits self HW text tbl Hrun) as Hall.
    rewrite List.Forall_forall in Hall. exact (Hall line Hline).
  - vm_compute; reflexivity.
Qed.

Lemma word_table_width_bound_witness :
  word_table (TextProcessor_init [FontC]) (repeat 109%N 21) =
    Ok (unmark [[((repeat 109%N 21, FontC), false)]]) /\
  (forall line,
      In line [[((repeat 109%N 21, FontC), false)]] ->
      no_fragment line = true ->
      exists total,
        line_pixels code_word_pixels (map fst line) = Ok total /\
        total <= IMAGE_PIX_WIDTH (TextProcessor_init [FontC])) /\
  code_word_pixels (repeat 109%N 15, FontD) = Ok 995.
Proof.
  apply (word_table_width_bound (TextProcessor_init [FontC]) (repeat 109%N 21)).
  - unfold TextProcessor_init, FONT_SIZE; simpl; lia.
  - vm_compute; reflexivity.
Defined.

(** C1 as the specification states it fails: with [letter_width = 129.5] a
    word of 21 letters measures [int(2719.5 + 1) = 2720] for the code and is
    placed on a line of width [W = 2720], while
    [ceil(2719.5) + 1 = 2721] exceeds [W]. *)
Lemma width_bound_fails_for_ceiling :
  ~ (forall (self : TextProcessor) (text : str)
            (tbl : list (list (Word * bool))),
        0 <= IMAGE_PIX_WIDTH self ->
        word_table_marked self text = Ok tbl ->
        forall line,
          In line tbl -> no_fragment line = true ->
          exists total,
            line_pixels spec_word_pixels (map fst line) = Ok total /\
            total <= IMAGE_PIX_WIDTH self).
Proof.
  intros H.
  destruct (H (TextProcessor_init [FontC]) (repeat 109%N 21)
              [[((repeat 109%N 21, FontC), false)]]
              ltac:(unfold TextProcessor_init, FONT_SIZE; simpl; lia)
              eq_refl
              [((repeat 109%N 21, FontC), false)]
              (or_introl eq_refl) eq_refl)
    as (total & Hsum & Hle).
  vm_compute in Hsum. injection Hsum as <-.
  vm_compute in Hle. now apply Hle.
Qed.

(** ** C7: the size of the canvas *)

Lemma fold_left_max_spec (l : list Z) (x : Z) :
  (fold_left Z.max l x = x \/ In (fold_left Z.max l x) l) /\
  x <= fold_left Z.max l x /\
  Forall (fun y => y <= fold_left Z.max l x) l.
Proof.
  revert x; induction l as [|y l IH]; intros x; simpl.
  - repeat split; [now left | lia | constructor].
  - destruct (IH (Z.max x y)) as (Hin & Hle & Hall).
    repeat split; [|lia|constructor; [lia | exact Hall]].
    destruct Hin as [E | Hin]; [|now right; right].
    destruct (Z.max_spec x y) as [[_ E'] | [_ E']]; rewrite E' in *;
      [right; left; now symmetry | now left].
Qed.

Lemma py_max_spec (l : list Z) (m : Z) :
  py_max l = Ok m -> In m l /\ Forall (fun x => x <= m) l.
Proof.
  destruct l as [|x l]; simpl; [discriminate|]. intros [= <-].
  destruct (fold_left_max_spec l x) as (Hin & Hle & Hall).
  split; [|constructor; [lia | exact Hall]].
  destruct Hin as [E | Hin]; [left; now symmetry | now right].
Qed.

Lemma draw_word_size (st st' : Image * (float * Z)) (w : Word) :
  draw_word st w = Ok st' -> image_size (fst st') = image_size (fst st).
Proof.
  destruct st as [img counter], w as [word font]; unfold draw_word.
  intros H; apply bind_Ok_inv in H as (lw & _ & H). now injection H as <-.
Qed.

Lemma draw_line_size (h : Z) (st st' : Image * (float * Z)) (line : Line) :
  draw_line h st line = Ok st' -> image_size (fst st') = image_size (fst st).
Proof.
  unfold draw_line; intros H.
  apply bind_Ok_inv in H as ([img counter] & Hloop & H); injection H as <-.
  simpl.
  apply (for_each_invariant
           (fun s => image_size (fst s) = image_size (fst st))
           draw_word line) with (s := st) (s' := (img, counter)); auto.
  intros s x s' _ Hs Hd. now rewrite (draw_word_size s s' x Hd).
Qed.

(** Wherever [compile_text] returns, the canvas is [PIXELS_PER_LINE *
    FONT_SIZE] wide and as high as the number of lines of the table times
    the maximum of the letter heights of the font set. *)
Lemma compile_text_size (self : TextProcessor) (text : str) (img : Image) :
  compile_text self text = Ok img ->
  exists tbl line_height,
    word_table self text = Ok tbl /\
    In line_height (map letter_height (fonts self)) /\
    Forall (fun f => letter_height f <= line_height) (fonts self) /\
    image_size img = (PIXELS_PER_LINE self * FONT_SIZE, line_height * len tbl).
Proof.
  unfold compile_text; intros H.
  apply bind_Ok_inv in H as (tbl & Htbl & H).
  apply bind_Ok_inv in H as (h & Hh & H).
  apply bind_Ok_inv in H as ([img' counter] & Hloop & H); injection H as <-.
  apply py_max_spec in Hh as [Hin Hall].
  exists tbl, h; repeat split; auto.
  - rewrite List.Forall_map in Hall; exact Hall.
  - apply (for_each_invariant
             (fun s => image_size (fst s) =
                       (PIXELS_PER_LINE self * FONT_SIZE, h * len tbl))
             (draw_line h) tbl) with (s' := (img', counter)) in Hloop; auto.
    intros s x s' _ Hs Hd. now rewrite (draw_line_size h s s' x Hd).
Qed.

(** The example of the specification: two lines in a font set made of Font A
    alone give a canvas of height [20 * 2 = 40]. *)
Lemma compile_text_two_lines :
  result_map image_size
    (compile_text {| fonts := [FontA]; PIXELS_PER_LINE := 20;
                     IMAGE_PIX_WIDTH := 100 |}
       (py "ab" ++ [NL] ++ py "cd")) = Ok (20 * FONT_SIZE, 40).
Proof. reflexivity. Qed.

(** In the two-font test set the line height is that of Font B, the highest
    font of the set, even when every word is in Font A. *)
Lemma compile_text_two_lines_test_set :
  result_map image_size
    (compile_text TEST_PROCESSOR (py "ab" ++ [NL] ++ py "cd")) =
  Ok (20 * FONT_SIZE, 50).
Proof. reflexivity. Qed.

(** ** The pipeline returns on every text that has a token *)

Section Totality.

Variable self : TextProcessor.
Hypothesis self_ok : processor_ok self.

#[local] Abbreviation in_set := (fun x : N * Font => In (snd x) (fonts self)).
#[local] Abbreviation in_set_w := (fun x : Word => In (snd x) (fonts self)).

Lemma letter_width_ok (f : Font) :
  example f <> [] -> exists lw, letter_width f = Ok lw.
Proof.
  intros Hex; unfold letter_width, truediv, len.
  destruct (example f); [contradiction|]. simpl; eauto.
Qed.

Lemma word_pix_length_ok (word : str) (f : Font) :
  example f <> [] -> exists wpl, word_pix_length_of word f = Ok wpl.
Proof.
  intros Hex; unfold word_pix_length_of.
  destruct (letter_width_ok f Hex) as (lw & ->); cbn [bind]; eauto.
Qed.

Lemma font_in_set_ok (f : Font) : In f (fonts self) -> font_ok f.
Proof.
  destruct self_ok as (_ & Hall & _).
  rewrite List.Forall_forall in Hall; apply Hall.
Qed.

(** Every token carries a font of the set. *)
Lemma letters_in_set (text : str) (ls : list Token) :
  letters self text = Ok ls -> Forall in_set ls.
Proof.
  unfold letters.
  apply (for_each_invariant (fun acc => Forall in_set acc)); [|constructor].
  intros acc c acc' _ Hacc; unfold letters_body.
  destruct (find _ (fonts self)) as [f|] eqn:Hfind.
  - intros [= <-]; apply Forall_app; split; auto.
    constructor; [|constructor]. simpl.
    now apply find_some in Hfind as [Hin _].
  - destruct (N.eqb c NL).
    + intros H; apply bind_Ok_inv in H as (f0 & Hf0 & H); injection H as <-.
      apply Forall_app; split; auto. constructor; [|constructor]. simpl.
      destruct (fonts self); [discriminate|]. injection Hf0 as ->; now left.
    + destruct (N.eqb c VS16); now intros [= <-].
Qed.

(** Every word carries a font of its tokens. *)
Lemma words_in_set (ls : list Token) (ws : list Word) :
  Forall in_set ls -> words ls = Ok ws -> Forall in_set_w ws.
Proof.
  intros Hls H; unfold words in H.
  apply bind_Ok_inv in H as (tok & Htok & H); injection H as <-.
  set (good := fun st : words_state =>
                 In (current_font st) (fonts self) /\
                 Forall in_set_w (ws_words st)).
  assert (Hnew : forall f st, In f (fonts self) -> good st -> good (new_word f st)).
  { intros f st Hf [Hcf Hws]; split; [now rewrite new_word_font|].
    rewrite new_word_words; apply Forall_app; split; auto.
    destruct (current_word st); constructor; auto. }
  assert (Hbody : forall st t, in_set t -> good st -> good (words_body st t)).
  { intros st [letter font] Hin Hst; simpl in Hin; unfold words_body.
    assert (H1 : good (if char_in letter [NL; SPACE]
                       then new_word (current_font st) st else st)).
    { destruct (char_in letter [NL; SPACE]); auto. apply Hnew; auto. apply Hst. }
    destruct (char_in letter [NL; SPACE] && N.eqb letter NL)%bool.
    - apply Hnew; auto.
    - destruct (font_eqb _ font); [exact H1|].
      destruct (Hnew font _ Hin H1) as [_ Hws]. split; [exact Hin | exact Hws]. }
  assert (Hloop : forall l st, Forall in_set l -> good st ->
                               good (fold_left words_body l st)).
  { induction l as [|t l IH]; intros st Hl Hst; simpl; [exact Hst|].
    inversion Hl; subst. apply IH; auto. }
  destruct ls as [|t0 ls']; [discriminate|]. injection Htok as <-.
  assert (Hin0 : In (snd t0) (fonts self)) by (inversion Hls; auto).
  match goal with
  | |- Forall _ (ws_words (new_word _ ?st)) =>
      assert (Hst : good st) by (apply Hloop; [exact Hls | split; [exact Hin0 | constructor]])
  end.
  apply Hnew; [apply Hst | exact Hst].
Qed.

(** One iteration of the loop of [word_table] returns. *)
Lemma word_table_body_total (st : table_state Word) (w : Word) :
  in_set_w w -> table_ok (table st) ->
  exists st', word_table_body self st w = Ok st'.
Proof.
  intros Hin Hok; destruct w as [word font]; simpl in Hin.
  destruct (font_in_set_ok font Hin) as [Hex Hlh].
  destruct self_ok as (_ & _ & HW).
  unfold word_table_body. destruct (str_eqb word [NL]).
  { destruct (newline_ok self st Hok) as (s1 & -> & _); eauto. }
  destruct (word_pix_length_ok word font Hex) as (wpl & ->); cbn [bind].
  destruct (wpl <=? line_pix_len st).
  { destruct (add_word_filled wpl (word, font) st Hok) as (s1 & -> & _); eauto. }
  destruct (wpl <=? IMAGE_PIX_WIDTH self).
  { destruct (newline_add_word_filled self wpl (word, font) st Hok)
      as (s1 & E & _); eauto. }
  unfold floordiv.
  apply Z.eqb_neq in HW, Hlh; rewrite HW, Hlh; simpl.
  match goal with
  | |- exists st', for_each ?body ?xs st = Ok st' =>
      destruct (for_each_total (fun s : table_state Word => table_ok (table s))
                  body xs) with (s := st) as (st' & Hrun & _); eauto
  end.
  intros s idx _ Hs.
  match goal with
  | |- exists s', bind (newline self s) (fun st1 => add_word ?wpl ?item st1) = _ /\ _ =>
      destruct (newline_add_word_filled self wpl item s Hs) as (s' & E & Hf)
  end.
  exists s'; split; [exact E | now apply table_filled_ok].
Qed.

(** The fonts of the table are fonts of the words. *)
Lemma word_table_body_in_set (st st' : table_state Word) (w : Word) :
  in_set_w w -> word_table_body self st w = Ok st' ->
  Forall (Forall in_set_w) (table st) -> Forall (Forall in_set_w) (table st').
Proof.
  intros Hin Hrun Hall; destruct w as [word font]; simpl in Hin.
  unfold word_table_body in Hrun. destruct (str_eqb word [NL]).
  { eapply newline_Forall; eauto. }
  apply bind_Ok_inv in Hrun as (wpl & _ & Hrun).
  destruct (wpl <=? line_pix_len st).
  { eapply add_word_Forall; eauto. }
  destruct (wpl <=? IMAGE_PIX_WIDTH self).
  { apply bind_Ok_inv in Hrun as (st1 & Hn & Ha).
    eapply add_word_Forall; eauto. eapply newline_Forall; eauto. }
  apply bind_Ok_inv in Hrun as (q & _ & Hrun).
  apply bind_Ok_inv in Hrun as (k & _ & Hrun).
  eapply (for_each_invariant (fun s => Forall (Forall in_set_w) (table s)));
    [|exact Hall|exact Hrun].
  intros s idx s' _ Hs Hit.
  apply bind_Ok_inv in Hit as (s1 & Hn & Ha).
  eapply add_word_Forall; [exact Ha| |eapply newline_Forall; eauto].
  exact Hin.
Qed.

Lemma word_table_total (text : str) (tok : Token) (ls : list Token) :
  letters self text = Ok (tok :: ls) ->
  exists tbl,
    word_table self text = Ok tbl /\ Forall (Forall in_set_w) tbl.
Proof.
  intros Hls; unfold word_table; rewrite Hls; simpl.
  pose proof (letters_in_set text _ Hls) as Hset.
  pose proof (words_in_set (tok :: ls) _ Hset eq_refl) as Hws.
  set (ws := ws_words _) in *. clearbody ws.
  destruct (for_each_total
              (fun s : table_state Word =>
                 table_ok (table s) /\ Forall (Forall in_set_w) (table s))
              (word_table_body self) ws) with (s := @word_table_init self Word)
    as (st & Hrun & _ & Hall).
  - intros s x Hx [Hs Hall].
    rewrite List.Forall_forall in Hws.
    destruct (word_table_body_total s x (Hws x Hx) Hs) as (s' & E).
    exists s'; repeat split; auto.
    + now destruct (word_table_body_shape self s s' x Hs E).
    + eapply word_table_body_in_set; eauto.
  - split; [apply word_table_init_ok | simpl; repeat constructor].
  - exists (table st); split; auto. now rewrite Hrun.
Qed.

End Totality.

Section CompileTextReturns.

Variable self : TextProcessor.
Hypothesis self_ok : processor_ok self.

Lemma draw_line_total (h : Z) (st : Image * (float * Z)) (line : Line) :
  Forall (fun w : Word => In (snd w) (fonts self)) line ->
  exists st', draw_line h st line = Ok st'.
Proof.
  intros Hline; unfold draw_line.
  destruct (for_each_total (fun _ : Image * (float * Z) => True) draw_word line)
    with (s := st) as ([img counter] & -> & _); simpl; eauto.
  intros [img counter] [word font] Hw _.
  rewrite List.Forall_forall in Hline.
  destruct (font_in_set_ok self self_ok font (Hline _ Hw)) as [Hex _].
  destruct (letter_width_ok font Hex) as (lw & Hlw).
  unfold draw_word; rewrite Hlw; simpl; eauto.
Qed.

(** On a well-formed processor, [compile_text] returns a canvas of the size
    of the specification for every text that has at least one token. *)
Lemma compile_text_returns (text : str) (tok : Token) (ls : list Token) :
  letters self text = Ok (tok :: ls) ->
  exists img tbl line_height,
    compile_text self text = Ok img /\
    word_table self text = Ok tbl /\
    py_max (map letter_height (fonts self)) = Ok line_height /\
    image_size img = (PIXELS_PER_LINE self * FONT_SIZE, line_height * len tbl).
Proof.
  intros Hls.
  destruct (word_table_total self self_ok text tok ls Hls) as (tbl & Htbl & Hset).
  destruct self_ok as (Hne & _ & _).
  destruct (py_max (map letter_height (fonts self))) as [h|e] eqn:Hmax;
    [|destruct (fonts self); [contradiction | discriminate]].
  assert (Hrun : exists img, compile_text self text = Ok img).
  { unfold compile_text; rewrite Htbl, Hmax; simpl.
    match goal with
    | |- exists img, bind (for_each _ _ ?st0) _ = _ =>
        destruct (for_each_total (fun _ : Image * (float * Z) => True)
                    (draw_line h) tbl) with (s := st0)
          as ([img counter] & -> & _); simpl; eauto
    end.
    intros st line Hline _.
    rewrite List.Forall_forall in Hset.
    destruct (draw_line_total h st line (Hset line Hline)) as (st' & ->); eauto. }
  destruct Hrun as (img & Himg).
  destruct (compile_text_size self text img Himg) as (tbl' & h' & Htbl' & _ & _ & Hsize).
  exists img, tbl, h; repeat split; auto.
  rewrite Htbl in Htbl'; injection Htbl' as <-.
  unfold compile_text in Himg; rewrite Htbl, Hmax in Himg; simpl in Himg.
  apply bind_Ok_inv in Himg as ([img' counter] & Hloop & Himg); injection Himg as <-.
  apply (for_each_invariant
           (fun s => image_size (fst s) =
                     (PIXELS_PER_LINE self * FONT_SIZE, h * len tbl))
           (draw_line h) tbl) with (s' := (img', counter)) in Hloop; auto.
  intros s x s' _ Hs Hd. now rewrite (draw_line_size h s s' x Hd).
Qed.

End CompileTextReturns.

(** C7, as the code has it. On a processor whose fonts can be measured, for
    every text that keeps at least one token, [compile_text] returns a canvas
    [PIXELS_PER_LINE * FONT_SIZE] wide whose height is the number of lines of
    the table times the maximum of the letter heights over the whole font
    set, whichever fonts the words of the table use. A table of two lines
    gives the height [40] when the font set is Font A alone. *)
Theorem compile_text_canvas_size (self : TextProcessor) (text : str)
  (tok : Token) (ls : list Token) :
  processor_ok self ->
  letters self text = Ok (tok :: ls) ->
  exists img tbl line_height,
    compile_text self text = Ok img /\
    word_table self text = Ok tbl /\
    In line_height (map letter_height (fonts self)) /\
    Forall (fun f => letter_height f <= line_height) (fonts self) /\
    image_size img =
      (PIXELS_PER_LINE self * FONT_SIZE, line_height * len tbl).
Proof.
  intros Hok Hls.
  destruct (compile_text_returns self Hok text tok ls Hls)
    as (img & tbl & h & Himg & Htbl & Hmax & Hsize).
  apply py_max_spec in Hmax as [Hin Hall].
  exists img, tbl, h; repeat split; auto.
  rewrite List.Forall_map in Hall; exact Hall.
Qed.

Lemma compile_text_canvas_size_witness :
  exists img,
    compile_text {| fonts := [FontA]; PIXELS_PER_LINE := 20;
                    IMAGE_PIX_WIDTH := 100 |}
      (py "ab" ++ [NL] ++ py "cd") = Ok img /\
    image_size img = (20 * FONT_SIZE, 40).
Proof.
  destruct (compile_text_canvas_size
              {| fonts := [FontA]; PIXELS_PER_LINE := 20;
                 IMAGE_PIX_WIDTH := 100 |}
              (py "ab" ++ [NL] ++ py "cd")
              (97%N, FontA) [(98%N, FontA); (NL, FontA); (99%N, FontA);
                             (100%N, FontA)])
    as (img & tbl & h & Himg & Htbl & Hin & _ & Hsize).
  - repeat split; try discriminate.
    repeat constructor; discriminate.
  - reflexivity.
  - exists img; split; [exact Himg|].
    vm_compute in Htbl; injection Htbl as <-.
    destruct Hin as [<- | []]. exact Hsize.
Defined.

(** C7 as the specification states it fails: in the two-font test set the
    table of ["ab\ncd"] has two lines whose words are all in Font A, of letter
    height 20, and the canvas is [25 * 2 = 50] high, not 40. *)
Lemma canvas_height_counts_every_font :
  ~ (forall (self : TextProcessor) (text : str) (img : Image)
            (tbl : list Line),
        compile_text self text = Ok img ->
        word_table self text = Ok tbl ->
        len tbl = 2 ->
        Forall (Forall (fun w : Word => letter_height (snd w) = 20)) tbl ->
        snd (image_size img) = 40).
Proof.
  intros H.
  assert (E : exists img,
             compile_text TEST_PROCESSOR (py "ab" ++ [NL] ++ py "cd") = Ok img /\
             snd (image_size img) = 50).
  { eexists; split; reflexivity. }
  destruct E as (img & Himg & Hheight).
  specialize (H TEST_PROCESSOR (py "ab" ++ [NL] ++ py "cd") img
                [[(py "ab", FontA)]; [(py "cd", FontA)]] Himg eq_refl eq_refl).
  rewrite Hheight in H.
  assert (50 = 40) by (apply H; repeat constructor). discriminate.
Qed.

(** ** C8: nothing to print *)

(** The layout core and [resize_img] raise [IndexError], [ZeroDivisionError]
    or [ValueError], never [NothingToPrint]. *)
Section Quiet.

Create HintDb quiet.

Lemma quiet_Ok {A : Type} (a : A) : quiet (Ok a).
Proof. discriminate. Qed.

Lemma quiet_bind {A B : Type} (r : result A) (k : A -> result B) :
  quiet r -> (forall a, quiet (k a)) -> quiet (bind r k).
Proof.
  intros Hr Hk H; apply bind_Raise_inv in H as [H | (a & _ & H)];
    [exact (Hr H) | exact (Hk a H)].
Qed.

Lemma quiet_for_each {S A : Type} (body : S -> A -> result S) (xs : list A)
  (s : S) :
  (forall s0 x, quiet (body s0 x)) -> quiet (for_each body xs s).
Proof.
  intros Hbody H; apply for_each_Raise_inv in H as (s0 & x & _ & H).
  exact (Hbody s0 x H).
Qed.

Lemma quiet_first_item {A : Type} (l : list A) : quiet (first_item l).
Proof. destruct l; discriminate. Qed.

Lemma quiet_last_item {A : Type} (l : list A) : quiet (last_item l).
Proof.
  destruct l as [|x l _] using rev_ind; [discriminate|].
  rewrite last_item_app; discriminate.
Qed.

Lemma quiet_append_to_last {A : Type} (tbl : list (list A)) (item : A) :
  quiet (append_to_last tbl item).
Proof.
  destruct tbl as [|x l _] using rev_ind; [discriminate|].
  rewrite append_to_last_app; discriminate.
Qed.

Lemma quiet_truediv (a b : Z) : quiet (truediv a b).
Proof. unfold truediv; destruct (b =? 0); discriminate. Qed.

Lemma quiet_floordiv (a b : Z) : quiet (floordiv a b).
Proof. unfold floordiv; destruct (b =? 0); discriminate. Qed.

Lemma quiet_py_max (l : list Z) : quiet (py_max l).
Proof. destruct l; discriminate. Qed.

Hint Resolve quiet_Ok quiet_first_item quiet_last_item quiet_append_to_last
  quiet_truediv quiet_floordiv quiet_py_max : quiet.

Ltac quiet_step :=
  match goal with
  | |- quiet (bind _ _) => apply quiet_bind; [|intros ?]
  | |- quiet (for_each _ _ _) => apply quiet_for_each; intros ? ?
  | |- quiet (match ?x with _ => _ end) => destruct x
  | |- quiet _ => solve [auto with quiet]
  end.

Lemma quiet_letter_width (f : Font) : quiet (letter_width f).
Proof. unfold letter_width; auto with quiet. Qed.

Hint Resolve quiet_letter_width : quiet.

Lemma quiet_letters (self : TextProcessor) (text : str) :
  quiet (letters self text).
Proof. unfold letters, letters_body; repeat quiet_step. Qed.

Lemma quiet_words (ls : list Token) : quiet (words ls).
Proof. unfold words; repeat quiet_step. Qed.

Lemma quiet_newline {A : Type} (self : TextProcessor) (st : table_state A) :
  quiet (newline self st).
Proof. unfold newline; repeat quiet_step. Qed.

Lemma quiet_add_word {A : Type} (wpl : Z) (item : A) (st : table_state A) :
  quiet (add_word wpl item st).
Proof. unfold add_word; repeat quiet_step. Qed.

Hint Resolve quiet_letters quiet_words quiet_newline quiet_add_word : quiet.

Lemma quiet_word_table (self : TextProcessor) (text : str) :
  quiet (word_table self text).
Proof.
  unfold word_table, word_table_body, word_pix_length_of; repeat quiet_step.
Qed.

Hint Resolve quiet_word_table : quiet.

Lemma quiet_compile_text (self : TextProcessor) (text : str) :
  quiet (compile_text self text).
Proof. unfold compile_text, draw_line, draw_word; repeat quiet_step. Qed.

Lemma quiet_resize_img (img : Image) : quiet (resize_img img).
Proof.
  unfold resize_img, Image_resize_to; repeat quiet_step; discriminate.
Qed.

End Quiet.

Section IoQuiet.

Lemma io_quiet_ret {A : Type} (a : A) : io_quiet (io_ret a).
Proof. intros tr; discriminate. Qed.

Lemma io_quiet_emit (ev : event) : io_quiet (io_emit ev).
Proof. intros tr; discriminate. Qed.

Lemma io_quiet_lift {A : Type} (r : result A) : quiet r -> io_quiet (io_lift r).
Proof. intros Hr tr; exact Hr. Qed.

Lemma io_quiet_bind {A B : Type} (c : io A) (k : A -> io B) :
  io_quiet c -> (forall a, io_quiet (k a)) -> io_quiet (io_bind c k).
Proof.
  intros Hc Hk tr; unfold io_bind. specialize (Hc tr).
  destruct (c tr) as [[a|e] tr']; simpl in *; [apply Hk|].
  intros [= ->]; now apply Hc.
Qed.

Lemma io_quiet_for_each {A : Type} (body : A -> io unit) (xs : list A) :
  (forall x, io_quiet (body x)) -> io_quiet (io_for_each body xs).
Proof.
  intros Hbody; induction xs as [|x xs IH]; simpl.
  - apply io_quiet_ret.
  - apply io_quiet_bind; auto.
Qed.

End IoQuiet.

(** C8, as the code has it. [citizen_print_msg] raises [NothingToPrint]
    exactly when the image is absent and the text is absent or empty (the
    guard is [not text and not img], and the empty string is false); when it
    raises it, the layout core has not been called and nothing has been sent
    to the printer. *)
Theorem citizen_print_msg_nothing_to_print (TEXT_PROCESSOR : TextProcessor)
  (text : option str) (img : option Image) (user_name : str)
  (tr : list event) :
  (fst (citizen_print_msg TEXT_PROCESSOR text img user_name tr)
     = Raise NothingToPrint <->
   (text = None \/ text = Some []) /\ img = None) /\
  (fst (citizen_print_msg TEXT_PROCESSOR text img user_name tr)
     = Raise NothingToPrint ->
   snd (citizen_print_msg TEXT_PROCESSOR text img user_name tr) = tr).
Proof.
  assert (Hquiet :
            (negb (text_truthy text) && negb (img_truthy img))%bool = false ->
            fst (citizen_print_msg TEXT_PROCESSOR text img user_name tr)
              <> Raise NothingToPrint).
  { intros Hguard; unfold citizen_print_msg; rewrite Hguard.
    apply io_quiet_bind.
    { destruct img; [|apply io_quiet_ret].
      apply io_quiet_bind; [|intros; apply io_quiet_ret].
      apply io_quiet_lift, quiet_resize_img. }
    intros images1; apply io_quiet_bind.
    { destruct text as [[|c t]|]; try apply io_quiet_ret.
      apply io_quiet_bind; [apply io_quiet_emit | intros _].
      apply io_quiet_bind; [apply io_quiet_lift, quiet_compile_text | intros canvas].
      apply io_quiet_bind; [apply io_quiet_lift, quiet_resize_img | intros r].
      apply io_quiet_ret. }
    intros images; apply io_quiet_bind.
    { apply io_quiet_for_each; intros x.
      apply io_quiet_bind; [|intros _]; apply io_quiet_emit. }
    intros _; apply io_quiet_bind; [|intros _]; apply io_quiet_emit. }
  destruct (negb (text_truthy text) && negb (img_truthy img))%bool eqn:Hguard.
  - assert (Hargs : (text = None \/ text = Some []) /\ img = None).
    { apply andb_prop in Hguard as [Ht Hi].
      destruct text as [[|c t]|], img; simpl in *; try discriminate; auto. }
    unfold citizen_print_msg; rewrite Hguard; simpl; tauto.
  - specialize (Hquiet eq_refl). split; [split|]; try contradiction.
    intros [[-> | ->] ->]; discriminate.
Qed.

(** C8 as the specification states it fails: the empty text, which is a
    text argument that is present, raises [NothingToPrint] with no image. *)
Lemma nothing_to_print_with_empty_text :
  ~ (forall (TEXT_PROCESSOR : TextProcessor) (text : option str)
            (img : option Image) (user_name : str) (tr : list event),
        fst (citizen_print_msg TEXT_PROCESSOR text img user_name tr)
          = Raise NothingToPrint <->
        text = None /\ img = None).
Proof.
  intros H.
  destruct (H TEST_PROCESSOR (Some []) None (py "user") []) as [Hraise _].
  destruct (Hraise eq_refl) as [Habs _]; discriminate.
Qed.

Lemma citizen_print_msg_nothing_to_print_witness :
  snd (citizen_print_msg TEST_PROCESSOR (Some []) None (py "user") []) = [].
Proof.
  apply (proj2 (citizen_print_msg_nothing_to_print TEST_PROCESSOR (Some [])
                  None (py "user") [])).
  reflexivity.
Defined.

(** ** C10: the message counter of a user *)

(** C10, as the code has it. For a name without row, [get_msg_count] creates
    the row, with the default counter, and returns the default [1]; the other
    rows are untouched. For a name whose row stores a counter, it returns
    that counter and leaves the table as it is. For a name whose row has NULL
    for counter, which the nullable column allows, it takes the row for
    missing: the insertion of a second row of that name is refused, and
    [get_msg_count] raises [IntegrityError] and leaves the table as it is. *)
Theorem get_msg_count_default_or_stored (name : str)
  (users : gmap (list N) (option Z)) :
  (users !! name = None ->
   User.get_msg_count name users = (Ok 1, <[name := Some 1]> users) /\
   snd (User.get_msg_count name users) !! name = Some (Some 1) /\
   forall other,
     other <> name ->
     snd (User.get_msg_count name users) !! other = users !! other) /\
  (forall count,
      users !! name = Some (Some count) ->
      User.get_msg_count name users = (Ok count, users)) /\
  (users !! name = Some None ->
   User.get_msg_count name users = (Raise IntegrityError, users)).
Proof.
  split; [|split].
  - intros Hnone.
    assert (E : User.get_msg_count name users = (Ok 1, <[name := Some 1]> users)).
    { unfold User.get_msg_count, User.scalar_messages_count, User.create.
      now rewrite Hnone. }
    rewrite E; simpl; repeat split.
    + apply lookup_insert_eq.
    + intros other Hne. now apply lookup_insert_ne.
  - intros count Hrow.
    unfold User.get_msg_count, User.scalar_messages_count.
    now rewrite Hrow.
  - intros Hrow.
    unfold User.get_msg_count, User.scalar_messages_count, User.create.
    now rewrite Hrow.
Qed.

Lemma get_msg_count_default_or_stored_witness :
  User.get_msg_count (py "bob") ({[ py "alice" := Some 3 ]}) =
    (Ok 1, <[py "bob" := Some 1]> ({[ py "alice" := Some 3 ]})) /\
  User.get_msg_count (py "alice") ({[ py "alice" := Some 3 ]}) =
    (Ok 3, {[ py "alice" := Some 3 ]}) /\
  User.get_msg_count (py "carol") ({[ py "carol" := None ]}) =
    (Raise IntegrityError, {[ py "carol" := None ]}).
Proof.
  split; [|split].
  - apply (proj1 (get_msg_count_default_or_stored (py "bob")
                    ({[ py "alice" := Some 3 ]}))).
    reflexivity.
  - apply (proj1 (proj2 (get_msg_count_default_or_stored (py "alice")
                           ({[ py "alice" := Some 3 ]})))).
    reflexivity.
  - apply (proj2 (proj2 (get_msg_count_default_or_stored (py "carol")
                           ({[ py "carol" := None ]})))).
    reflexivity.
Defined.

(** C10 as the specification states it fails: a row whose counter is NULL is
    an existing row, and for its name [get_msg_count] returns nothing, it
    raises. *)
Lemma get_msg_count_raises_on_null_counter :
  ~ (forall (name : str) (users : gmap (list N) (option Z)) (row : option Z),
        users !! name = Some row ->
        exists count,
          User.get_msg_count name users = (Ok count, users) /\
          row = Some count).
Proof.
  intros H.
  destruct (H (py "carol") ({[ py "carol" := None ]}) None)
    as (count & Hget & _); [reflexivity|].
  vm_compute in Hget. discriminate Hget.
Qed.

(** ** The pixel budget never exceeds the canvas width *)

Section Budget.

Variable self : TextProcessor.

Lemma binary_round_aux_nonneg (mx ex : Z) (lx : location) :
  float_nonneg (binary_round_aux float_prec float_emax false mx ex lx).
Proof.
  unfold binary_round_aux.
  destruct (shr_fexp _ _ mx ex lx) as [mrs' e'].
  destruct (shr_fexp _ _ _ e' loc_Exact) as [mrs'' e''].
  destruct (shr_m mrs''); simpl; auto.
  destruct (_ <=? _); simpl; auto.
Qed.

Lemma binary_round_nonneg (m : positive) (e : Z) :
  float_nonneg (binary_round float_prec float_emax false m e).
Proof.
  unfold binary_round. destruct (shl_align _ _ _) as [mz ez].
  apply binary_round_aux_nonneg.
Qed.

Lemma binary_normalize_nonneg (m e : Z) :
  0 <= m -> float_nonneg (binary_normalize float_prec float_emax m e false).
Proof.
  intros Hm; destruct m as [|p|p]; [exact I| |lia].
  apply binary_round_nonneg.
Qed.

Lemma float_of_int_nonneg (z : Z) : 0 <= z -> float_nonneg (float_of_int z).
Proof. apply binary_normalize_nonneg. Qed.

Lemma float_mul_nonneg (x y : float) :
  float_nonneg x -> float_nonneg y -> float_nonneg (float_mul x y).
Proof.
  destruct x as [sx|sx| |[] mx ex], y as [sy|sy| |[] my ey]; simpl;
    try tauto; intros _ _.
  apply binary_round_aux_nonneg.
Qed.

Lemma float_add_nonneg (x y : float) :
  float_nonneg x -> float_nonneg y -> float_nonneg (float_add x y).
Proof.
  destruct x as [[]|[]| |[] mx ex], y as [[]|[]| |[] my ey]; simpl;
    try tauto; intros _ _.
  apply binary_round_nonneg.
Qed.

Lemma truediv_nonneg (a b : Z) (x : float) :
  0 <= a -> 0 <= b -> truediv a b = Ok x -> float_nonneg x.
Proof.
  unfold truediv; intros Ha Hb. destruct (b =? 0); [discriminate|].
  intros [= <-].
  destruct a as [|p|p], b as [|q|q]; simpl; auto; try lia.
  destruct (SFdiv_core_binary _ _ _ _ _ _) as [[mz ez] lz].
  apply binary_round_aux_nonneg.
Qed.

Lemma py_int_nonneg (x : float) : float_nonneg x -> 0 <= py_int x.
Proof.
  destruct x as [s|s| |[] m e]; simpl; try tauto; try lia.
  intros _. apply Z.shiftl_nonneg; lia.
Qed.

(** With a font of non-negative width the pixel length of a word is not
    negative. *)
Lemma word_pix_length_nonneg (word : str) (font : Font) (wpl : Z) :
  0 <= fst (getsize_example font) ->
  word_pix_length_of word font = Ok wpl -> 0 <= wpl.
Proof.
  intros Hw H; unfold word_pix_length_of in H.
  apply bind_Ok_inv in H as (lw & Hlw & H); injection H as <-.
  apply truediv_nonneg in Hlw; [|exact Hw|unfold len; lia].
  apply py_int_nonneg, float_add_nonneg;
    [|exact (float_of_int_nonneg 1 ltac:(lia))].
  apply float_mul_nonneg; [|exact Hlw].
  apply float_of_int_nonneg; unfold len; lia.
Qed.

(** With fonts of non-negative width, [line_pix_len] stays at most [W]: the
    state hypothesis of the forced split holds all along the loop. *)
Lemma word_table_body_budget (st st' : table_state Word) (w : Word) :
  0 <= fst (getsize_example (snd w)) ->
  line_pix_len st <= IMAGE_PIX_WIDTH self ->
  word_table_body self st w = Ok st' ->
  line_pix_len st' <= IMAGE_PIX_WIDTH self.
Proof.
  intros Hw Hst Hrun; destruct w as [word font]; simpl in Hw.
  assert (Hnl : forall s s' : table_state Word,
             line_pix_len s <= IMAGE_PIX_WIDTH self ->
             newline self s = Ok s' ->
             line_pix_len s' <= IMAGE_PIX_WIDTH self).
  { intros s s' Hs H; unfold newline in H.
    apply bind_Ok_inv in H as (cur & _ & H).
    destruct cur; injection H as <-; simpl; lia. }
  assert (Hadd : forall (s s' : table_state Word) wpl item,
             0 <= wpl -> line_pix_len s <= IMAGE_PIX_WIDTH self ->
             add_word wpl item s = Ok s' ->
             line_pix_len s' <= IMAGE_PIX_WIDTH self).
  { intros s s' wpl item Hwpl Hs H; unfold add_word in H.
    apply bind_Ok_inv in H as (t & _ & H). injection H as <-; simpl; lia. }
  unfold word_table_body in Hrun. destruct (str_eqb word [NL]); [eauto|].
  apply bind_Ok_inv in Hrun as (wpl & Hwpl & Hrun).
  apply word_pix_length_nonneg in Hwpl; [|exact Hw].
  destruct (wpl <=? line_pix_len st); [eauto|].
  destruct (wpl <=? IMAGE_PIX_WIDTH self).
  { apply bind_Ok_inv in Hrun as (st1 & Hn & Ha); eauto. }
  apply bind_Ok_inv in Hrun as (q & _ & Hrun).
  apply bind_Ok_inv in Hrun as (k & _ & Hrun).
  eapply (for_each_invariant
            (fun s : table_state Word => line_pix_len s <= IMAGE_PIX_WIDTH self));
    [|exact Hst|exact Hrun].
  intros s idx s' _ Hs Hit.
  apply bind_Ok_inv in Hit as (s1 & Hn & Ha); eauto.
Qed.

End Budget.

(** * Further properties of the code *)

(** ** [words]: nothing is lost, nothing empty is emitted *)

Section WordsContent.

#[local] Abbreviation seen := words_seen.

Lemma seen_new_word (f : Font) (st : words_state) :
  seen (new_word f st) = seen st.
Proof.
  unfold words_seen; rewrite new_word_words, new_word_buffer, app_nil_r.
  rewrite map_app, concat_app.
  destruct (current_word st); simpl; now rewrite ?app_nil_r.
Qed.

Lemma seen_words_body (st : words_state) (tok : Token) :
  seen (words_body st tok) = seen st ++ [fst tok].
Proof.
  destruct tok as [letter font]; unfold words_body; cbn [fst].
  assert (Hpush : forall s, seen (push_letter letter s) = seen s ++ [letter]).
  { intros s; unfold words_seen; simpl; now rewrite app_assoc. }
  assert (Hset : forall s, seen (set_font font s) = seen s) by reflexivity.
  destruct (char_in letter [NL; SPACE]); cbn [andb].
  - destruct (N.eqb letter NL); [|destruct (font_eqb _ font)];
      rewrite ?Hset, ?seen_new_word, Hpush, ?seen_new_word; reflexivity.
  - destruct (font_eqb _ font);
      rewrite ?Hset, Hpush, ?seen_new_word; reflexivity.
Qed.

Lemma seen_words_loop (ls : list Token) (st : words_state) :
  seen (fold_left words_body ls st) = seen st ++ map fst ls.
Proof.
  revert st; induction ls as [|tok ls IH]; intros st; simpl.
  - now rewrite app_nil_r.
  - now rewrite IH, seen_words_body, <- app_assoc.
Qed.

(** The words of [words] are the characters of the tokens cut into pieces:
    no character is dropped, added or moved, spaces and newlines included. *)
Theorem words_keep_every_character (ls : list Token) (ws : list Word) :
  words ls = Ok ws -> concat (map fst ws) = map fst ls.
Proof.
  unfold words; intros H; apply bind_Ok_inv in H as (tok & _ & H).
  injection H as <-.
  match goal with
  | |- concat (map fst (ws_words (new_word ?f ?st))) = _ =>
      pose proof (seen_new_word f st) as Hflush;
      pose proof (new_word_buffer f st) as Hbuf
  end.
  unfold words_seen in Hflush at 1; rewrite Hbuf, app_nil_r in Hflush.
  rewrite Hflush, seen_words_loop. reflexivity.
Qed.

End WordsContent.

Lemma words_keep_every_character_witness :
  concat (map fst [(py "a", FontA); (py " b", FontA)]) =
  map fst [(97%N, FontA); (SPACE, FontA); (98%N, FontA)].
Proof.
  apply (words_keep_every_character
           [(97%N, FontA); (SPACE, FontA); (98%N, FontA)]
           [(py "a", FontA); (py " b", FontA)]).
  reflexivity.
Defined.

Lemma words_body_nonempty_words (st : words_state) (tok : Token) :
  Forall (fun w : Word => fst w <> []) (ws_words st) ->
  Forall (fun w : Word => fst w <> []) (ws_words (words_body st tok)).
Proof.
  intros Hst.
  assert (Hnew : forall f s,
             Forall (fun w : Word => fst w <> []) (ws_words s) ->
             Forall (fun w : Word => fst w <> []) (ws_words (new_word f s))).
  { intros f s Hs; rewrite new_word_words; apply Forall_app; split; auto.
    destruct (current_word s) eqn:E; constructor; simpl; auto; congruence. }
  destruct tok as [letter font]; unfold words_body.
  destruct (char_in letter [NL; SPACE]); simpl;
    [destruct (N.eqb letter NL)|]; try destruct (font_eqb _ font); simpl; auto.
  apply Hnew; simpl; auto.
Qed.

(** Whenever [words] returns, it returns at least one word and no word with
    an empty text. *)
Theorem words_emit_nonempty_words (ls : list Token) (ws : list Word) :
  words ls = Ok ws -> ws <> [] /\ Forall (fun w : Word => fst w <> []) ws.
Proof.
  intros H; split; [exact (words_nonempty ls ws H)|].
  unfold words in H; apply bind_Ok_inv in H as (tok & _ & H).
  injection H as <-.
  match goal with
  | |- Forall _ (ws_words (new_word ?f ?st)) =>
      assert (Hst : Forall (fun w : Word => fst w <> []) (ws_words st))
  end.
  { assert (Hloop : forall l s,
               Forall (fun w : Word => fst w <> []) (ws_words s) ->
               Forall (fun w : Word => fst w <> [])
                 (ws_words (fold_left words_body l s))).
    { induction l as [|t l IH]; intros s Hs; simpl; [exact Hs|].
      apply IH, words_body_nonempty_words, Hs. }
    apply Hloop; constructor. }
  rewrite new_word_words; apply Forall_app; split; auto.
  match goal with
  | |- Forall _ (match ?b with _ => _ end) =>
      destruct b eqn:E; constructor; simpl; auto; congruence
  end.
Qed.

Lemma words_emit_nonempty_words_witness :
  [(py "a", FontA); ([NL], FontA)] <> [] /\
  Forall (fun w : Word => fst w <> []) [(py "a", FontA); ([NL], FontA)].
Proof.
  apply (words_emit_nonempty_words [(97%N, FontA); (NL, FontA)]).
  reflexivity.
Defined.

(** ** [words]: the font of a word closed by a change of font *)






(** ** [letters]: when it raises, and when it keeps nothing *)

Lemma letters_loop_no_font (self : TextProcessor) (cs : str) (acc : list Token) :
  fonts self = [] ->
  for_each (letters_body self) cs acc =
  if char_in NL cs then Raise IndexError else Ok acc.
Proof.
  intros Hfs; revert acc; induction cs as [|c cs IH]; intros acc;
    [reflexivity|].
  change (char_in NL (c :: cs)) with (N.eqb NL c || char_in NL cs)%bool.
  cbn [for_each]. unfold letters_body at 1; rewrite Hfs; cbn [find].
  rewrite (N.eqb_sym NL c).
  destruct (N.eqb c NL); [reflexivity|].
  destruct (N.eqb c VS16); cbn [bind orb]; apply IH.
Qed.

(** [letters] raises exactly when the font set is empty and a newline is
    left in the stripped text, and then [IndexError] (from [self.fonts[0]]);
    with an empty font set and no such newline it returns no token. *)
Theorem letters_raises_iff_newline_without_font (self : TextProcessor)
  (text : str) :
  (letters self text = Raise IndexError <->
   fonts self = [] /\ char_in NL (strip [SPACE; NL] text) = true) /\
  (forall e, letters self text = Raise e -> e = IndexError) /\
  (fonts self = [] -> char_in NL (strip [SPACE; NL] text) = false ->
   letters self text = Ok []).
Proof.
  destruct (fonts self) as [|f0 fs] eqn:Hfs.
  - pose proof (letters_loop_no_font self (strip [SPACE; NL] text) [] Hfs) as E.
    fold (letters self text) in E.
    destruct (char_in NL (strip [SPACE; NL] text)); rewrite E;
      repeat split; try tauto; try congruence; try discriminate.
    now intros [_ ?].
  - destruct (letters_loop_emits self (strip [SPACE; NL] text) [])
      as (tokss & _ & E); [congruence|].
    fold (letters self text) in E; simpl in E; rewrite E.
    repeat split; try discriminate. now intros [? _].
Qed.

Section NoToken.

Variable self : TextProcessor.

Lemma find_none_unsupported (c : N) :
  unsupported (fonts self) c ->
  find (fun font => has_symbol font c) (fonts self) = None.
Proof.
  unfold unsupported; induction (fonts self) as [|g fs IH]; intros H; simpl;
    [reflexivity|].
  inversion H as [|? ? Hg Hfs]; subst. rewrite Hg; auto.
Qed.

Lemma letters_loop_all_dropped (cs : str) (acc : list Token) :
  Forall (fun c => c <> NL /\ unsupported (fonts self) c) cs ->
  for_each (letters_body self) cs acc = Ok acc.
Proof.
  revert acc; induction cs as [|c cs IH]; intros acc H; simpl; [reflexivity|].
  inversion H as [|? ? [Hnl Hun] Hrest]; subst.
  unfold letters_body at 1; rewrite (find_none_unsupported c Hun).
  apply N.eqb_neq in Hnl; rewrite Hnl.
  destruct (N.eqb c VS16); simpl; auto.
Qed.

Lemma emits_kept (c : N) (toks : list Token) :
  emits (fonts self) c toks ->
  c = NL \/ ~ unsupported (fonts self) c -> toks <> [].
Proof.
  intros Hem Hkept; destruct Hem as [f Hf | f0 rest Hun Hc Hfs | Hun Hc];
    try discriminate.
  destruct Hkept; contradiction.
Qed.

Lemma letters_keeps_a_token (text : str) :
  fonts self <> [] ->
  Exists (fun c => c = NL \/ ~ unsupported (fonts self) c)
    (strip [SPACE; NL] text) ->
  exists tok ls, letters self text = Ok (tok :: ls).
Proof.
  intros Hne Hex.
  destruct (letters_loop_emits self (strip [SPACE; NL] text) [] Hne)
    as (tokss & Hall & E).
  fold (letters self text) in E; simpl in E; rewrite E.
  assert (Hcat : concat tokss <> []).
  { clear E. induction Hall as [|c toks cs tokss' Hem Hall IH]; simpl.
    - inversion Hex.
    - inversion Hex as [? ? Hc | ? ? Hrest]; subst.
      + pose proof (emits_kept c toks Hem Hc). now destruct toks.
      + specialize (IH Hrest). destruct toks; simpl; [exact IH | discriminate]. }
  destruct (concat tokss) as [|tok ls]; [contradiction | eauto].
Qed.

(** On a processor whose fonts can be measured, [compile_text] fails exactly
    on the texts that keep no token: those whose characters, once the text is
    stripped, are all without glyph and none a newline. It then raises
    [IndexError]; on every other text it returns a canvas. *)
Theorem compile_text_fails_iff_no_token (text : str) :
  processor_ok self ->
  (Forall (fun c => c <> NL /\ unsupported (fonts self) c)
     (strip [SPACE; NL] text) ->
   compile_text self text = Raise IndexError) /\
  (Exists (fun c => c = NL \/ ~ unsupported (fonts self) c)
     (strip [SPACE; NL] text) ->
   exists img, compile_text self text = Ok img).
Proof.
  intros Hok; split.
  - intros Hall. unfold compile_text, word_table, letters.
    now rewrite (letters_loop_all_dropped _ [] Hall).
  - intros Hex. destruct Hok as (Hne & Hfonts & HW).
    destruct (letters_keeps_a_token text Hne Hex) as (tok & ls & Hls).
    destruct (compile_text_returns self (conj Hne (conj Hfonts HW)) text tok ls Hls)
      as (img & _ & _ & Himg & _).
    eauto.
Qed.

End NoToken.

Lemma compile_text_fails_iff_no_token_witness :
  compile_text TEST_PROCESSOR [9731%N; 9731%N] = Raise IndexError /\
  exists img, compile_text TEST_PROCESSOR (py "a" ++ [9731%N]) = Ok img.
Proof.
  split.
  - apply (proj1 (compile_text_fails_iff_no_token TEST_PROCESSOR
                    [9731%N; 9731%N]
                    ltac:(repeat split; try discriminate;
                          repeat constructor; discriminate))).
    repeat constructor; discriminate.
  - apply (proj2 (compile_text_fails_iff_no_token TEST_PROCESSOR
                    (py "a" ++ [9731%N])
                    ltac:(repeat split; try discriminate;
                          repeat constructor; discriminate))).
    apply Exists_cons_hd. right. intros H. inversion H; discriminate.
Defined.

(** ** [word_table]: what wrapping keeps *)

Section TableContent.

Variable self : TextProcessor.

Lemma newline_concat {A : Type} (st st' : table_state A) :
  newline self st = Ok st' -> concat (table st') = concat (table st).
Proof.
  unfold newline; intros H; apply bind_Ok_inv in H as (cur & _ & H).
  destruct cur; injection H as <-; simpl; [reflexivity|].
  rewrite concat_app; simpl. now rewrite app_nil_r.
Qed.

Lemma add_word_concat {A : Type} (wpl : Z) (item : A) (st st' : table_state A) :
  add_word wpl item st = Ok st' ->
  concat (table st') = concat (table st) ++ [item].
Proof.
  unfold add_word; intros H; apply bind_Ok_inv in H as (t & Ht & H).
  injection H as <-; simpl.
  apply append_to_last_Ok_inv in Ht as (init & cur & -> & ->).
  rewrite !concat_app; simpl. now rewrite !app_nil_r, app_assoc.
Qed.

Lemma word_table_body_concat (st st' : table_state Word) (w : Word) :
  (fst w <> [NL] ->
   forall p, word_pix_length_of (fst w) (snd w) = Ok p ->
             p <= IMAGE_PIX_WIDTH self) ->
  word_table_body self st w = Ok st' ->
  concat (table st') =
  concat (table st) ++ (if str_eqb (fst w) [NL] then [] else [w]).
Proof.
  intros Hfits Hrun; destruct w as [word font]; simpl in *.
  unfold word_table_body in Hrun. unfold str_eqb in *.
  case_bool_decide as Hnl.
  - rewrite app_nil_r; now apply newline_concat.
  - apply bind_Ok_inv in Hrun as (wpl & Hwpl & Hrun).
    specialize (Hfits Hnl wpl Hwpl).
    destruct (wpl <=? line_pix_len st); [now apply add_word_concat in Hrun|].
    destruct (Z.leb_spec wpl (IMAGE_PIX_WIDTH self)) as [_ | Hbig]; [|lia].
    apply bind_Ok_inv in Hrun as (st1 & Hn & Ha).
    apply add_word_concat in Ha. apply newline_concat in Hn. congruence.
Qed.

(** When no word is wider than the canvas, wrapping only decides where the
    lines break: read line after line, the table holds the words of [words]
    in their order, all of them but the newline words. *)
Theorem word_table_keeps_the_words (text : str) (ls : list Token)
  (ws : list Word) (tbl : list Line) :
  letters self text = Ok ls -> words ls = Ok ws ->
  (forall word font p,
      In (word, font) ws -> word <> [NL] ->
      word_pix_length_of word font = Ok p -> p <= IMAGE_PIX_WIDTH self) ->
  word_table self text = Ok tbl ->
  concat tbl = List.filter (fun w => negb (str_eqb (fst w) [NL])) ws.
Proof.
  intros Hls Hws Hfits Hrun; unfold word_table in Hrun.
  rewrite Hls in Hrun; simpl in Hrun; rewrite Hws in Hrun; simpl in Hrun.
  apply bind_Ok_inv in Hrun as (st & Hloop & Hrun); injection Hrun as <-.
  assert (Hgen : forall l s s',
             (forall w, In w l -> In w ws) ->
             for_each (word_table_body self) l s = Ok s' ->
             concat (table s') =
             concat (table s) ++
             List.filter (fun w => negb (str_eqb (fst w) [NL])) l).
  { induction l as [|w l IH]; intros s s' Hin Hl; simpl in *.
    - injection Hl as <-; now rewrite app_nil_r.
    - apply bind_Ok_inv in Hl as (s1 & Hb & Hl).
      apply word_table_body_concat in Hb.
      + rewrite (IH s1 s') by auto. rewrite Hb, <- app_assoc.
        cbn [List.filter]. now destruct (str_eqb (fst w) [NL]).
      + intros Hnl p Hp. destruct w as [word font].
        apply (Hfits word font p); auto. }
  now rewrite (Hgen ws _ st (fun w H => H) Hloop).
Qed.

End TableContent.

Lemma word_table_keeps_the_words_witness :
  concat [[(py "ab", FontA)]; [(py "cd", FontA); (py " e", FontA)]] =
  List.filter (fun w => negb (str_eqb (fst w) [NL]))
    [(py "ab", FontA); ([NL], FontA); (py "cd", FontA); (py " e", FontA)].
Proof.
  apply (word_table_keeps_the_words TEST_PROCESSOR
           (py "ab" ++ [NL] ++ py "cd e")
           (map (fun c => (c, FontA)) (py "ab" ++ [NL] ++ py "cd e"))).
  - reflexivity.
  - reflexivity.
  - intros word font p Hin _ Hp.
    simpl in Hin.
    destruct Hin as [E | [E | [E | [E | []]]]]; injection E as <- <-;
      vm_compute in Hp; injection Hp as <-; vm_compute; discriminate.
  - reflexivity.
Defined.

(** ** [word_table]: what the forced split keeps *)

Lemma firstn_plus {A : Type} (a b : nat) (l : list A) :
  firstn (a + b) l = firstn a l ++ firstn b (skipn a l).
Proof.
  revert l; induction a as [|a IH]; intros l; simpl; [reflexivity|].
  destruct l as [|x l]; simpl; [now rewrite firstn_nil | now rewrite IH].
Qed.

Lemma chunks_concat {A : Type} (k n : nat) (l : list A) :
  concat (map (fun i => firstn k (skipn (i * k) l)) (seq 0 n)) =
  firstn (n * k) l.
Proof.
  induction n as [|n IH]; [reflexivity|].
  rewrite seq_S, map_app, concat_app, IH; simpl.
  rewrite app_nil_r, (Nat.add_comm k (n * k)). symmetry; apply firstn_plus.
Qed.

Section ForcedSplitContent.

Variable self : TextProcessor.

(** Under the conditions of the forced split, the iteration of the loop of
    [word_table] is the loop over the fragments. *)
Lemma word_table_body_forced (st : table_state Word) (word : str)
  (font : Font) (wpl : Z) :
  0 < IMAGE_PIX_WIDTH self -> letter_height font <> 0 ->
  line_pix_len st <= IMAGE_PIX_WIDTH self ->
  word <> [NL] ->
  word_pix_length_of word font = Ok wpl ->
  IMAGE_PIX_WIDTH self < wpl ->
  word_table_body self st (word, font) =
  for_each
    (split_iteration self word font wpl
       (IMAGE_PIX_WIDTH self / letter_height font))
    (range ((wpl - 1) / IMAGE_PIX_WIDTH self + 1)) st.
Proof.
  intros HW Hlh Hlpl Hnl Hwpl Hbig.
  unfold word_table_body, str_eqb.
  rewrite bool_decide_eq_false_2 by exact Hnl.
  rewrite Hwpl; simpl.
  replace (wpl <=? line_pix_len st) with false by (symmetry; apply Z.leb_gt; lia).
  replace (wpl <=? IMAGE_PIX_WIDTH self) with false
    by (symmetry; apply Z.leb_gt; lia).
  unfold floordiv.
  replace (IMAGE_PIX_WIDTH self =? 0) with false by (symmetry; apply Z.eqb_neq; lia).
  replace (letter_height font =? 0) with false by (symmetry; now apply Z.eqb_neq).
  reflexivity.
Qed.

(** The forced split of a word puts in the table, fragment after fragment,
    the first [lines_count * word_part_len] characters of the word and
    nothing else: when the word is longer than that, its end is lost. *)
Theorem forced_split_keeps_a_prefix (st : table_state Word) (word : str)
  (font : Font) (init : list Line) (cur : Line) (wpl : Z) :
  0 < IMAGE_PIX_WIDTH self -> 0 < letter_height font ->
  table st = init ++ [cur] -> line_pix_len st <= IMAGE_PIX_WIDTH self ->
  word <> [NL] ->
  word_pix_length_of word font = Ok wpl ->
  IMAGE_PIX_WIDTH self < wpl ->
  let word_part_len := IMAGE_PIX_WIDTH self / letter_height font in
  let lines_count := (wpl - 1) / IMAGE_PIX_WIDTH self + 1 in
  exists st',
    word_table_body self st (word, font) = Ok st' /\
    concat (map fst (concat (table st'))) =
    concat (map fst (concat (table st))) ++
    firstn (Z.to_nat (lines_count * word_part_len)) word.
Proof.
  intros HW Hlh E Hlpl Hnl Hwpl Hbig k n.
  assert (Hk : 0 <= k) by (apply Z.div_pos; lia).
  assert (Hn : 0 < n).
  { subst n. assert (0 <= (wpl - 1) / IMAGE_PIX_WIDTH self)
      by (apply Z.div_pos; lia). lia. }
  rewrite (word_table_body_forced st word font wpl) by (auto; lia).
  destruct (split_loop_table_any self word font wpl k n st init cur Hn E)
    as (st' & Hrun & Et).
  exists st'; split; [exact Hrun|].
  rewrite Et, E, !concat_app, !map_app, !concat_app. f_equal.
  - destruct cur; simpl;
      rewrite ?app_nil_r, ?concat_app, ?map_app, ?concat_app; simpl;
      now rewrite ?app_nil_r.
  - replace (Z.to_nat (n * k)) with (Z.to_nat n * Z.to_nat k)%nat by lia.
    rewrite <- chunks_concat. unfold range.
    induction (seq 0 (Z.to_nat n)) as [|i l IH]; [reflexivity|].
    cbn [map concat app fst]. rewrite IH, slice_next by lia.
    do 3 f_equal. lia.
Qed.

End ForcedSplitContent.

Lemma forced_split_keeps_a_prefix_witness :
  exists st',
    word_table_body TEST_PROCESSOR (word_table_init TEST_PROCESSOR)
      (repeat 109%N 30, FontA) = Ok st' /\
    concat (map fst (concat (table st'))) =
    concat (map fst (concat (table (@word_table_init TEST_PROCESSOR Word)))) ++
    firstn (Z.to_nat (((301 - 1) / 100 + 1) * (100 / 20))) (repeat 109%N 30).
Proof.
  apply (forced_split_keeps_a_prefix TEST_PROCESSOR
           (word_table_init TEST_PROCESSOR) (repeat 109%N 30) FontA [] [] 301).
  - reflexivity.
  - reflexivity.
  - reflexivity.
  - simpl; lia.
  - discriminate.
  - reflexivity.
  - reflexivity.
Defined.

(** ** [compile_text]: what is drawn, and where *)

Section DrawCalls.

#[local] Abbreviation word_of :=
  (fun d : (float * Z) * str * Font => (snd (fst d), snd d)).
#[local] Abbreviation ordinate_of :=
  (fun d : (float * Z) * str * Font => snd (fst (fst d))).

Lemma draw_word_calls (img img' : Image) (counter counter' : float * Z)
  (w : Word) :
  draw_word (img, counter) w = Ok (img', counter') ->
  draw_calls img' = draw_calls img ++ [(counter, fst w, snd w)] /\
  snd counter' = snd counter.
Proof.
  destruct w as [word font]; unfold draw_word; intros H.
  apply bind_Ok_inv in H as (lw & _ & H). now injection H as <- <-.
Qed.

Lemma draw_words_calls (line : Line) (img img' : Image)
  (counter counter' : float * Z) :
  for_each draw_word line (img, counter) = Ok (img', counter') ->
  map word_of (draw_calls img') = map word_of (draw_calls img) ++ line /\
  map ordinate_of (draw_calls img') =
    map ordinate_of (draw_calls img) ++ repeat (snd counter) (length line) /\
  snd counter' = snd counter.
Proof.
  revert img counter; induction line as [|w line IH]; intros img counter H;
    simpl in H.
  - injection H as <- <-; simpl; now rewrite !app_nil_r.
  - apply bind_Ok_inv in H as ([img1 counter1] & Hw & H).
    apply draw_word_calls in Hw as [Hcalls Hy].
    destruct (IH _ _ H) as (Hwords & Hys & Hy').
    rewrite Hwords, Hys, Hcalls, !map_app, Hy', Hy; simpl.
    rewrite <- !app_assoc; simpl. destruct w; auto.
Qed.

Lemma draw_lines_calls (h : Z) (tbl : list Line) (img img' : Image)
  (counter counter' : float * Z) :
  for_each (draw_line h) tbl (img, counter) = Ok (img', counter') ->
  map word_of (draw_calls img') = map word_of (draw_calls img) ++ concat tbl /\
  map ordinate_of (draw_calls img') =
    map ordinate_of (draw_calls img) ++ line_ordinates h (snd counter) tbl.
Proof.
  revert img counter; induction tbl as [|line tbl IH]; intros img counter H;
    simpl in H.
  - injection H as <- <-; simpl; now rewrite !app_nil_r.
  - apply bind_Ok_inv in H as ([img1 counter1] & Hline & H).
    unfold draw_line in Hline.
    apply bind_Ok_inv in Hline as ([img2 counter2] & Hwords & Hline).
    injection Hline as <- <-.
    apply draw_words_calls in Hwords as (Hw & Hy & Hc).
    destruct (IH _ _ H) as (Hw' & Hy').
    rewrite Hw', Hy', Hw, Hy; simpl. rewrite Hc, <- !app_assoc. auto.
Qed.

(** The canvas [compile_text] returns carries one call of [draw.text] for
    every word of the table and no other, in reading order, each with the
    text and the font of its word; the words of the line of index [i] are all
    drawn at the ordinate [i * line_height]. *)
Theorem compile_text_draws_the_table (self : TextProcessor) (text : str)
  (img : Image) :
  compile_text self text = Ok img ->
  exists tbl line_height,
    word_table self text = Ok tbl /\
    py_max (map letter_height (fonts self)) = Ok line_height /\
    map word_of (draw_calls img) = concat tbl /\
    map ordinate_of (draw_calls img) = line_ordinates line_height 0 tbl.
Proof.
  unfold compile_text; intros H.
  apply bind_Ok_inv in H as (tbl & Htbl & H).
  apply bind_Ok_inv in H as (h & Hh & H).
  apply bind_Ok_inv in H as ([img' counter] & Hloop & H); injection H as <-.
  apply draw_lines_calls in Hloop as [Hw Hy].
  exists tbl, h; repeat split; auto.
Qed.

End DrawCalls.

Lemma compile_text_draws_the_table_witness :
  exists tbl line_height,
    word_table TEST_PROCESSOR (py "ab" ++ [NL] ++ py "cd e") = Ok tbl /\
    py_max (map letter_height [FontA; FontB]) = Ok line_height /\
    [(py "ab", FontA); (py "cd", FontA); (py " e", FontA)] = concat tbl /\
    [0; 25; 25] = line_ordinates line_height 0 tbl.
Proof.
  destruct (compile_text TEST_PROCESSOR (py "ab" ++ [NL] ++ py "cd e"))
    as [img|e] eqn:E; [|discriminate E].
  pose proof (compile_text_draws_the_table TEST_PROCESSOR
                (py "ab" ++ [NL] ++ py "cd e") img E) as H.
  vm_compute in E; injection E as <-. exact H.
Defined.

(** ** [citizen_print_msg]: what reaches the printer *)

Lemma resize_img_Ok (img r : Image) :
  resize_img img = Ok r ->
  (exists size, r = Image_resize img size) /\
  fst (image_size r) = CITIZEN_CT_S2000_WIDTH.
Proof.
  unfold resize_img; intros H; apply bind_Ok_inv in H as (ratio & _ & H).
  unfold Image_resize_to in H; cbn [fst snd] in H.
  destruct (andb _ _); [|destruct (orb _ _); [discriminate|]];
    injection H as <-; simpl; eauto.
Qed.

Lemma print_images_trace (imgs : list Image) (tr : list event) :
  io_for_each
    (fun img_ =>
       let! _ := io_emit (Printer_image img_) in io_emit (Printer_text [NL]))
    imgs tr =
  (Ok tt, tr ++ flat_map image_commands imgs).
Proof.
  revert tr; induction imgs as [|i imgs IH]; intros tr; simpl.
  - unfold io_ret; now rewrite app_nil_r.
  - unfold io_bind, io_emit at 1 2; simpl. rewrite IH.
    now rewrite <- !app_assoc.
Qed.

Section PrintMsgTrace.

Variable TEXT_PROCESSOR : TextProcessor.

(** [citizen_print_msg] computes every image before it sends the first
    command. *)
Lemma citizen_print_msg_cases (text : option str) (img : option Image)
  (user_name : str) (tr : list event) :
  let calls :=
    match text with
    | Some (c :: t) => [Call_compile_text (c :: t)]
    | _ => []
    end in
  (exists e,
      citizen_print_msg TEXT_PROCESSOR text img user_name tr = (Raise e, tr) \/
      citizen_print_msg TEXT_PROCESSOR text img user_name tr
        = (Raise e, tr ++ calls)) \/
  (exists photo_part canvas_part,
      match img with
      | Some i => exists r, resize_img i = Ok r /\ photo_part = [r]
      | None => photo_part = []
      end /\
      match text with
      | Some (c :: t) =>
          exists canvas r,
            compile_text TEXT_PROCESSOR (c :: t) = Ok canvas /\
            resize_img canvas = Ok r /\ canvas_part = [r]
      | _ => canvas_part = []
      end /\
      citizen_print_msg TEXT_PROCESSOR text img user_name tr =
      (Ok tt,
       tr ++ calls ++ flat_map image_commands (photo_part ++ canvas_part) ++
       [Printer_text (py "@" ++ user_name ++ [NL]); Printer_cut])).
Proof.
  intros calls; unfold citizen_print_msg.
  destruct img as [i|]; [destruct (resize_img i) as [r|e] eqn:Hr|];
    (destruct text as [[|c t]|];
     [| destruct (compile_text TEXT_PROCESSOR (c :: t)) as [canvas|e'] eqn:Hc;
        [destruct (resize_img canvas) as [r'|e''] eqn:Hr'|] |]);
    subst calls; cbn [text_truthy img_truthy negb andb];
    unfold io_bind, io_lift, io_ret, io_raise, io_emit;
    rewrite ?Hr, ?Hc, ?Hr'; cbn [fst snd];
    rewrite ?Hc, ?Hr', ?print_images_trace;
    try (left; eexists; left; reflexivity);
    try (left; eexists; right; reflexivity);
    right.
  all: try (exists [r], []; repeat split; eauto;
            cbn [app]; now rewrite ?app_nil_r, <- ?app_assoc).
  all: try (exists [r], [r']; repeat split; eauto;
            cbn [app]; now rewrite ?app_nil_r, <- ?app_assoc).
  all: try (exists [], [r']; repeat split; eauto;
            cbn [app]; now rewrite ?app_nil_r, <- ?app_assoc).
Qed.

End PrintMsgTrace.

Lemma printer_commands_app (tr tr' : list event) :
  printer_commands (tr ++ tr') = printer_commands tr ++ printer_commands tr'.
Proof. unfold printer_commands; apply List.filter_app. Qed.

Lemma citizen_print_msg_raise_no_command (TEXT_PROCESSOR : TextProcessor)
  (text : option str) (img : option Image) (user_name : str)
  (tr : list event) (e : exn) :
  fst (citizen_print_msg TEXT_PROCESSOR text img user_name tr) = Raise e ->
  printer_commands
    (snd (citizen_print_msg TEXT_PROCESSOR text img user_name tr)) =
  printer_commands tr.
Proof.
  intros Hraise.
  destruct (citizen_print_msg_cases TEXT_PROCESSOR text img user_name tr)
    as [(e' & [E | E]) | (pp & cp & _ & _ & E)];
    rewrite E in *; simpl in *; try discriminate; [reflexivity|].
  rewrite printer_commands_app.
  destruct text as [[|c t]|]; simpl; now rewrite app_nil_r.
Qed.

(** Printing is all or nothing: when [citizen_print_msg] raises, whatever the
    exception, no command has been sent to the printer. *)
Theorem citizen_print_msg_all_or_nothing (TEXT_PROCESSOR : TextProcessor)
  (text : option str) (img : option Image) (user_name : str)
  (tr : list event) (e : exn) :
  fst (citizen_print_msg TEXT_PROCESSOR text img user_name tr) = Raise e ->
  printer_commands
    (snd (citizen_print_msg TEXT_PROCESSOR text img user_name tr)) =
  printer_commands tr.
Proof. apply citizen_print_msg_raise_no_command. Qed.

Lemma citizen_print_msg_all_or_nothing_witness :
  printer_commands
    (snd (citizen_print_msg TEST_PROCESSOR (Some [SPACE])
            (Some (Image_open (10, 20) [])) (py "user") [])) =
  printer_commands [].
Proof.
  apply (citizen_print_msg_all_or_nothing TEST_PROCESSOR (Some [SPACE])
           (Some (Image_open (10, 20) [])) (py "user") [] IndexError).
  reflexivity.
Defined.

(** When [citizen_print_msg] returns, the printer has received, in this
    order: the photo, when there is one, then the picture of the text, when
    the text is not empty, each resized to the width of the printer and
    followed by a newline; then the signature line; then one cut. The layout
    core has been called once for a non-empty text, and not at all
    otherwise. *)
Theorem citizen_print_msg_prints_in_order (TEXT_PROCESSOR : TextProcessor)
  (text : option str) (img : option Image) (user_name : str)
  (tr : list event) :
  fst (citizen_print_msg TEXT_PROCESSOR text img user_name tr) = Ok tt ->
  exists photo_part canvas_part,
    match img with
    | Some i => exists size, photo_part = [Image_resize i size]
    | None => photo_part = []
    end /\
    match text with
    | Some (c :: t) =>
        exists canvas size,
          compile_text TEXT_PROCESSOR (c :: t) = Ok canvas /\
          canvas_part = [Image_resize canvas size]
    | _ => canvas_part = []
    end /\
    Forall (fun r => fst (image_size r) = CITIZEN_CT_S2000_WIDTH)
      (photo_part ++ canvas_part) /\
    snd (citizen_print_msg TEXT_PROCESSOR text img user_name tr) =
      tr ++
      match text with
      | Some (c :: t) => [Call_compile_text (c :: t)]
      | _ => []
      end ++
      flat_map image_commands (photo_part ++ canvas_part) ++
      [Printer_text (py "@" ++ user_name ++ [NL]); Printer_cut].
Proof.
  intros Hok.
  destruct (citizen_print_msg_cases TEXT_PROCESSOR text img user_name tr)
    as [(e' & [E | E]) | (pp & cp & Hpp & Hcp & E)];
    rewrite E in *; simpl in Hok; try discriminate.
  exists pp, cp; simpl.
  assert (Hphoto : match img with
                   | Some i => exists size, pp = [Image_resize i size]
                   | None => pp = []
                   end /\
                   Forall (fun r => fst (image_size r) = CITIZEN_CT_S2000_WIDTH) pp).
  { destruct img as [i|].
    - destruct Hpp as (r & Hr & ->).
      apply resize_img_Ok in Hr as [(size & ->) Hw]. split; eauto.
    - subst pp; split; [reflexivity | constructor]. }
  assert (Hcanvas : match text with
                    | Some (c :: t) =>
                        exists canvas size,
                          compile_text TEXT_PROCESSOR (c :: t) = Ok canvas /\
                          cp = [Image_resize canvas size]
                    | _ => cp = []
                    end /\
                    Forall (fun r => fst (image_size r) = CITIZEN_CT_S2000_WIDTH) cp).
  { destruct text as [[|c t]|]; try (subst cp; split; [reflexivity | constructor]).
    destruct Hcp as (canvas & r & Hc & Hr & ->).
    apply resize_img_Ok in Hr as [(size & ->) Hw]. split; eauto. }
  destruct Hphoto as [Hp1 Hp2], Hcanvas as [Hc1 Hc2].
  repeat split; auto. apply Forall_app; auto.
Qed.

Lemma citizen_print_msg_prints_in_order_witness :
  exists photo_part canvas_part,
    (exists size, photo_part = [Image_resize (Image_open (10, 20) []) size]) /\
    canvas_part = [] /\
    Forall (fun r => fst (image_size r) = CITIZEN_CT_S2000_WIDTH)
      (photo_part ++ canvas_part) /\
    snd (citizen_print_msg TEST_PROCESSOR None
           (Some (Image_open (10, 20) [])) (py "user") []) =
      [] ++ [] ++ flat_map image_commands (photo_part ++ canvas_part) ++
      [Printer_text (py "@" ++ py "user" ++ [NL]); Printer_cut].
Proof.
  apply (citizen_print_msg_prints_in_order TEST_PROCESSOR None
           (Some (Image_open (10, 20) [])) (py "user") []).
  reflexivity.
Defined.

(** ** [User]: how the operations compose *)

Section UserTable.

Implicit Types (name : str) (users : gmap (list N) (option Z)).

Lemma get_msg_count_Ok name users (c : Z) :
  fst (User.get_msg_count name users) = Ok c ->
  snd (User.get_msg_count name users) !! name = Some (Some c).
Proof.
  unfold User.get_msg_count, User.scalar_messages_count, User.create.
  destruct (users !! name) as [[c'|]|] eqn:E; simpl.
  - now intros [= <-].
  - discriminate.
  - intros [= <-]. apply lookup_insert_eq.
Qed.


(** Reading the counter twice is reading it once: after a call that returned
    a count, the row exists, and another call returns the same count and
    leaves the table as it is. *)
Theorem get_msg_count_twice name users (c : Z) :
  fst (User.get_msg_count name users) = Ok c ->
  User.get_msg_count name (snd (User.get_msg_count name users)) =
  (Ok c, snd (User.get_msg_count name users)).
Proof.
  intros H; apply get_msg_count_Ok in H.
  unfold User.get_msg_count at 1, User.scalar_messages_count.
  now rewrite H.
Qed.

(** [create] is refused for every name the table already knows: after a
    [create] or a [get_msg_count] for a name, whatever their outcome, a
    [create] for that name raises [IntegrityError] and changes nothing. *)
Theorem create_refused_once_known name users :
  User.create name (snd (User.create name users)) =
    (Raise IntegrityError, snd (User.create name users)) /\
  User.create name (snd (User.get_msg_count name users)) =
    (Raise IntegrityError, snd (User.get_msg_count name users)).
Proof.
  unfold User.get_msg_count, User.scalar_messages_count, User.create.
  destruct (users !! name) as [[c|]|] eqn:E; simpl;
    rewrite ?E, ?lookup_insert_eq; auto.
Qed.

Lemma decrease_lookup name users :
  User.decrease_messages_count name users !! name =
  option_map (option_map (fun c => c - 1)) (users !! name).
Proof.
  unfold User.decrease_messages_count; rewrite lookup_alter_eq.
  now destruct (users !! name).
Qed.

Lemma decrease_iter_lookup name users (c : Z) (n : nat) :
  users !! name = Some (Some c) ->
  Nat.iter n (User.decrease_messages_count name) users !! name =
  Some (Some (c - Z.of_nat n)).
Proof.
  intros H; induction n as [|n IH].
  - simpl; rewrite H; do 2 f_equal; lia.
  - rewrite Nat.iter_succ, decrease_lookup, IH; simpl. do 2 f_equal; lia.
Qed.

(** [decrease_messages_count] takes one from the counter of the row of the
    name and touches no other row; it has no floor at zero, so that [n] calls
    bring a counter [c] to [c - n], below zero when [n > c], as long as
    [c - n] is an [INTEGER] of SQLite; and for a name without row it does
    nothing: it creates no row. *)
Theorem decrease_messages_count_has_no_floor name users (c : Z) (n : nat) :
  (users !! name = Some (Some c) ->
   c <= User.INTEGER_MAX -> User.INTEGER_MIN <= c - Z.of_nat n ->
   User.get_msg_count name
     (Nat.iter n (User.decrease_messages_count name) users) =
   (Ok (c - Z.of_nat n),
    Nat.iter n (User.decrease_messages_count name) users)) /\
  (forall other,
      other <> name ->
      User.decrease_messages_count name users !! other = users !! other) /\
  (users !! name = None -> User.decrease_messages_count name users = users).
Proof.
  repeat split.
  - intros H _ _. unfold User.get_msg_count, User.scalar_messages_count.
    now rewrite (decrease_iter_lookup name users c n H).
  - intros other Hne. unfold User.decrease_messages_count.
    now apply lookup_alter_ne.
  - intros H. unfold User.decrease_messages_count.
    now apply alter_id'.
Qed.

Lemma decrease_messages_count_has_no_floor_witness :
  User.get_msg_count (py "bob")
    (Nat.iter 3 (User.decrease_messages_count (py "bob"))
       ({[ py "bob" := Some 1 ]})) =
  (Ok (1 - Z.of_nat 3),
   Nat.iter 3 (User.decrease_messages_count (py "bob"))
     ({[ py "bob" := Some 1 ]})).
Proof.
  apply (proj1 (decrease_messages_count_has_no_floor (py "bob")
                  ({[ py "bob" := Some 1 ]}) 1 3)).
  - reflexivity.
  - unfold User.INTEGER_MAX; lia.
  - unfold User.INTEGER_MIN; lia.
Defined.

(** The three operations of [User] keep the column [messages_count] free of
    NULL, and on such a table [get_msg_count] never raises. *)
Theorem user_operations_keep_counters_defined name users :
  no_null_count users ->
  (exists c, fst (User.get_msg_count name users) = Ok c) /\
  no_null_count (snd (User.get_msg_count name users)) /\
  no_null_count (snd (User.create name users)) /\
  no_null_count (User.decrease_messages_count name users).
Proof.
  intros Hnn.
  assert (Hins : no_null_count (<[name := Some User.messages_count_default]> users)).
  { intros k. destruct (decide (name = k)) as [<- | Hne].
    - rewrite lookup_insert_eq; discriminate.
    - rewrite lookup_insert_ne by exact Hne. apply Hnn. }
  unfold User.get_msg_count, User.scalar_messages_count, User.create.
  destruct (users !! name) as [[c|]|] eqn:E; simpl.
  - repeat split; eauto.
    intros k. destruct (decide (name = k)) as [<- | Hne].
    + rewrite decrease_lookup, E; discriminate.
    + unfold User.decrease_messages_count.
      rewrite lookup_alter_ne by exact Hne. apply Hnn.
  - destruct (Hnn name E).
  - repeat split; eauto.
    intros k. destruct (decide (name = k)) as [<- | Hne].
    + rewrite decrease_lookup, E; discriminate.
    + unfold User.decrease_messages_count.
      rewrite lookup_alter_ne by exact Hne. apply Hnn.
Qed.

End UserTable.

Lemma get_msg_count_twice_witness :
  User.get_msg_count (py "bob") (snd (User.get_msg_count (py "bob") ∅)) =
  (Ok 1, snd (User.get_msg_count (py "bob") ∅)).
Proof.
  apply (get_msg_count_twice (py "bob") ∅ 1).
  reflexivity.
Defined.

Lemma user_operations_keep_counters_defined_witness :
  exists c, fst (User.get_msg_count (py "bob") ∅) = Ok c.
Proof.
  apply (proj1 (user_operations_keep_counters_defined (py "bob") ∅
                  ltac:(intros k; rewrite lookup_empty; discriminate))).
Defined.

(** ** tg_serve.py: the message handler *)

Section Respond.

Variable TEXT_PROCESSOR : TextProcessor.
Variable bmp_writable : Image -> bool.

Variables (update : tg.Update) (m : tg.Message) (user_name : str).
Hypothesis has_message : tg.message update = Some m.
Hypothesis has_user : tg.effective_user update = Some (Some user_name).

#[local] Abbreviation the_text := (text_or (tg.text m) (tg.caption m)).
#[local] Abbreviation the_img := (download_photo (tg.photo m)).
#[local] Abbreviation the_row := (fun rows : list Message.row =>
  {| Message.id := Message.next_id rows; Message.user_name := Some user_name;
     Message.text := the_text; Message.img := the_img |}).

Lemma check_input_with_message (st : bot_state) :
  check_input update st =
  let '(r, users') := User.get_msg_count user_name (users st) in
  let st1 := {| users := users'; messages := messages st;
                events := events st; outbox := outbox st |} in
  match r with
  | Raise e => (Thrown (Core e), st1)
  | Ok msgs_count =>
      if msgs_count <=? 0 then
        (Thrown UnsupportedFormat,
         {| users := users'; messages := messages st; events := events st;
            outbox := outbox st ++
                      [tg.Reply_text (tg.message_id m) OUT_OF_ATTEMPTS_MSG
                         (Some (tg.message_id m))] |})
      else (Done tt, st1)
  end.
Proof.
  unfold check_input; rewrite has_user, has_message.
  unfold bot_bind, attr_of, bot_ret, on_users; simpl.
  destruct (User.get_msg_count user_name (users st)) as [[c|e] users'];
    simpl; [|reflexivity].
  destruct (c <=? 0); reflexivity.
Qed.

Lemma save_and_print_msg_with_message (st : bot_state) :
  save_and_print_msg TEXT_PROCESSOR bmp_writable update st =
  let '(r, events') :=
    citizen_print_msg TEXT_PROCESSOR the_text the_img user_name (events st) in
  match r with
  | Raise e =>
      (Thrown (Core e),
       {| users := users st; messages := messages st;
          events := events'; outbox := outbox st |})
  | Ok _ =>
      let '(r', messages') :=
        Message.create bmp_writable (Some user_name) the_text the_img
          (messages st) in
      (outcome_of r',
       {| users := User.decrease_messages_count user_name (users st);
          messages := messages';
          events := events'; outbox := outbox st |})
  end.
Proof.
  unfold save_and_print_msg; rewrite has_user, has_message.
  unfold bot_bind, attr_of, bot_ret, on_printer, on_users, on_messages; simpl.
  destruct (citizen_print_msg _ _ _ _ _) as [[[]|e] events']; simpl;
    [|reflexivity].
  destruct (Message.create _ _ _ _ _) as [r' messages']; reflexivity.
Qed.

Lemma respond_no_credit (st : bot_state) (c : Z) :
  users st !! user_name = Some (Some c) -> c <= 0 ->
  respond TEXT_PROCESSOR bmp_writable update st =
  (Done tt,
   {| users := users st; messages := messages st; events := events st;
      outbox := outbox st ++
                [tg.Reply_text (tg.message_id m) OUT_OF_ATTEMPTS_MSG
                   (Some (tg.message_id m))] |}).
Proof.
  intros Hrow Hc. unfold respond, try_except_NothingToPrint.
  rewrite check_input_with_message.
  unfold User.get_msg_count, User.scalar_messages_count; rewrite Hrow.
  replace (c <=? 0) with true by (symmetry; apply Z.leb_le; lia).
  reflexivity.
Qed.

(** What [respond] does once the counter is positive and the print went
    through: the credit is taken and the printer served, whatever
    [db.Message.create] then does. *)
Lemma respond_print_ok (st : bot_state) (c : Z)
  (users1 : gmap (list N) (option Z)) :
  User.get_msg_count user_name (users st) = (Ok c, users1) -> 0 < c ->
  fst (citizen_print_msg TEXT_PROCESSOR the_text the_img user_name (events st))
    = Ok tt ->
  let r := respond TEXT_PROCESSOR bmp_writable update st in
  users (snd r) = User.decrease_messages_count user_name users1 /\
  users (snd r) !! user_name = Some (Some (c - 1)) /\
  events (snd r) =
    snd (citizen_print_msg TEXT_PROCESSOR the_text the_img user_name
           (events st)) /\
  (match the_img with
   | Some i => bmp_writable i = true
   | None => True
   end ->
   fst r = Done tt /\
   messages (snd r) = messages st ++ [the_row (messages st)] /\
   outbox (snd r) =
     outbox st ++ [tg.Reply_text (tg.message_id m) PRINTED_MSG
                     (Some (tg.message_id m))]) /\
  (forall i,
      the_img = Some i -> bmp_writable i = false ->
      fst r = Thrown (Core OSError) /\
      messages (snd r) = messages st /\
      outbox (snd r) = outbox st).
Proof.
  intros Hget Hc Hprint r.
  assert (Hcount : User.decrease_messages_count user_name users1 !! user_name
                   = Some (Some (c - 1))).
  { rewrite decrease_lookup.
    assert (H : fst (User.get_msg_count user_name (users st)) = Ok c)
      by now rewrite Hget.
    apply get_msg_count_Ok in H; rewrite Hget in H; simpl in H.
    now rewrite H. }
  subst r; unfold respond, try_except_NothingToPrint.
  rewrite check_input_with_message, Hget.
  replace (c <=? 0) with false by (symmetry; apply Z.leb_gt; lia).
  cbv beta iota zeta.
  rewrite save_and_print_msg_with_message; cbn [events users messages outbox].
  destruct (citizen_print_msg _ _ _ _ _) as [[[]|e] events'];
    simpl in Hprint; [|discriminate].
  unfold Message.create.
  destruct the_img as [i|]; [destruct (bmp_writable i) eqn:Hbmp|];
    cbn [outcome_of is_NothingToPrint fst snd]; rewrite ?has_message;
    cbn [fst snd users events messages outbox bot_bind attr_of bot_ret
         reply_text send];
    repeat split; auto; try discriminate; try congruence.
  all: intros j [= <-]; congruence.
Qed.

(** A print that succeeds costs exactly one credit: the counter read by
    [check_input] goes down by one and the printer has received the
    message. Then one row holding the user, the text and the photo is added
    to [message] and the user is told it was printed, unless the photo
    cannot be written as BMP: then the [OSError] of [db.Message.create]
    leaves [respond] after the print and the charge, no row is stored and no
    reply is sent. *)
Theorem respond_prints_and_charges (st : bot_state) (c : Z)
  (users1 : gmap (list N) (option Z)) :
  User.get_msg_count user_name (users st) = (Ok c, users1) -> 0 < c ->
  fst (citizen_print_msg TEXT_PROCESSOR the_text the_img user_name (events st))
    = Ok tt ->
  let r := respond TEXT_PROCESSOR bmp_writable update st in
  users (snd r) = User.decrease_messages_count user_name users1 /\
  users (snd r) !! user_name = Some (Some (c - 1)) /\
  events (snd r) =
    snd (citizen_print_msg TEXT_PROCESSOR the_text the_img user_name
           (events st)) /\
  (match the_img with
   | Some i => bmp_writable i = true
   | None => True
   end ->
   fst r = Done tt /\
   messages (snd r) = messages st ++ [the_row (messages st)] /\
   outbox (snd r) =
     outbox st ++ [tg.Reply_text (tg.message_id m) PRINTED_MSG
                     (Some (tg.message_id m))]) /\
  (forall i,
      the_img = Some i -> bmp_writable i = false ->
      fst r = Thrown (Core OSError) /\
      messages (snd r) = messages st /\
      outbox (snd r) = outbox st).
Proof. apply respond_print_ok. Qed.

(** A print that fails costs nothing: when [citizen_print_msg] raises, no
    credit is taken, no row is stored and nothing has reached the printer.
    [NothingToPrint] is answered with a reply; any other exception leaves
    [respond] without a reply. *)
Theorem respond_failed_print_is_free (st : bot_state) (c : Z)
  (users1 : gmap (list N) (option Z)) (e : exn) :
  User.get_msg_count user_name (users st) = (Ok c, users1) -> 0 < c ->
  fst (citizen_print_msg TEXT_PROCESSOR the_text the_img user_name (events st))
    = Raise e ->
  let r := respond TEXT_PROCESSOR bmp_writable update st in
  users (snd r) = users1 /\
  messages (snd r) = messages st /\
  printer_commands (events (snd r)) = printer_commands (events st) /\
  (e = NothingToPrint ->
   fst r = Done tt /\
   outbox (snd r) =
     outbox st ++ [tg.Reply_text (tg.message_id m) NOTHING_TO_PRINT_MSG
                     (Some (tg.message_id m))]) /\
  (e <> NothingToPrint ->
   fst r = Thrown (Core e) /\ outbox (snd r) = outbox st).
Proof.
  intros Hget Hc Hprint r.
  pose proof (citizen_print_msg_raise_no_command TEXT_PROCESSOR the_text
                the_img user_name (events st) e Hprint) as Hnothing.
  subst r; unfold respond, try_except_NothingToPrint.
  rewrite check_input_with_message, Hget.
  replace (c <=? 0) with false by (symmetry; apply Z.leb_gt; lia).
  cbv beta iota zeta.
  rewrite save_and_print_msg_with_message; cbn [events users messages outbox].
  destruct (citizen_print_msg _ _ _ _ _) as [[[]|e'] events'];
    simpl in Hprint, Hnothing; [discriminate|].
  injection Hprint as ->.
  destruct e; simpl; rewrite ?has_message; simpl;
    repeat split; auto; try congruence; try discriminate.
Qed.

End Respond.

Lemma respond_prints_and_charges_witness :
  let r := respond TEST_PROCESSOR test_bmp_writable test_update (test_state 2) in
  users (snd r) !! py "bob" = Some (Some (2 - 1)) /\
  fst r = Done tt.
Proof.
  intros r.
  destruct (respond_prints_and_charges TEST_PROCESSOR test_bmp_writable
              test_update test_message (py "bob") eq_refl eq_refl
              (test_state 2) 2 ({[ py "bob" := Some 2 ]})
              eq_refl ltac:(lia) eq_refl)
    as (_ & Hcount & _ & Hstored & _).
  split; [exact Hcount | exact (proj1 (Hstored I))].
Defined.

Lemma respond_failed_print_is_free_witness :
  fst (respond TEST_PROCESSOR test_bmp_writable snowman_update (test_state 2))
    = Thrown (Core IndexError) /\
  outbox (snd (respond TEST_PROCESSOR test_bmp_writable snowman_update
                 (test_state 2))) = [].
Proof.
  apply (respond_failed_print_is_free TEST_PROCESSOR test_bmp_writable
           snowman_update
           {| tg.message_id := 7; tg.text := Some [9731%N];
              tg.caption := None; tg.photo := [] |}
           (py "bob") eq_refl eq_refl (test_state 2) 2
           ({[ py "bob" := Some 2 ]}) IndexError eq_refl ltac:(lia) eq_refl).
  discriminate.
Defined.

Section RespondComposed.

Variable TEXT_PROCESSOR : TextProcessor.
Variable bmp_writable : Image -> bool.

(** A user without credit prints nothing: with a stored counter at zero or
    below, whatever the update holds, [respond] leaves the printer, the
    layout core and both tables as they were. To a message it answers that
    the attempts are used up, and does nothing else; on an edited message it
    returns without a word. *)
Theorem respond_refuses_without_credit (update : tg.Update) (user_name : str)
  (st : bot_state) (c : Z) :
  tg.effective_user update = Some (Some user_name) ->
  users st !! user_name = Some (Some c) -> c <= 0 ->
  let r := respond TEXT_PROCESSOR bmp_writable update st in
  users (snd r) = users st /\
  messages (snd r) = messages st /\
  events (snd r) = events st /\
  (forall m,
      tg.message update = Some m ->
      fst r = Done tt /\
      outbox (snd r) =
        outbox st ++ [tg.Reply_text (tg.message_id m) OUT_OF_ATTEMPTS_MSG
                        (Some (tg.message_id m))]) /\
  (tg.message update = None -> tg.edited_message update <> None ->
   fst r = Done tt /\ outbox (snd r) = outbox st).
Proof.
  intros Hu Hrow Hc r.
  assert (Hget : User.get_msg_count user_name (users st) = (Ok c, users st)).
  { unfold User.get_msg_count, User.scalar_messages_count. now rewrite Hrow. }
  destruct (tg.message update) as [m|] eqn:Hm.
  - pose proof (respond_no_credit TEXT_PROCESSOR bmp_writable update m
                  user_name Hm Hu st c Hrow Hc) as E.
    subst r; rewrite E; cbn [fst snd users messages events outbox].
    repeat split; auto; try discriminate; congruence.
  - subst r; unfold respond, try_except_NothingToPrint, check_input.
    rewrite Hu, Hm.
    unfold bot_bind, attr_of, bot_ret, bot_throw, on_users, reply_text, send.
    cbn [User.get_msg_count_for]; rewrite Hget.
    cbn [outcome_of fst snd users messages events outbox].
    destruct (tg.edited_message update) as [em|];
      [|destruct (tg.effective_message update) as [em|]];
      cbn [is_NothingToPrint fst snd users messages events outbox];
      repeat split; auto; try discriminate; try congruence.
Qed.

(** A new user with a username gets exactly one print. When the first
    message of a user without row is printed, the counter of the new row is
    left at zero, whether [respond] then returns or lets the [OSError] of
    [db.Message.create] escape; and a second message of that user, whatever
    it holds, is refused and prints nothing. *)
Theorem respond_new_user_prints_once (first second : tg.Update)
  (m1 m2 : tg.Message) (user_name : str) (st : bot_state) :
  tg.message first = Some m1 ->
  tg.effective_user first = Some (Some user_name) ->
  tg.message second = Some m2 ->
  tg.effective_user second = Some (Some user_name) ->
  users st !! user_name = None ->
  fst (citizen_print_msg TEXT_PROCESSOR
         (text_or (tg.text m1) (tg.caption m1)) (download_photo (tg.photo m1))
         user_name (events st)) = Ok tt ->
  let r1 := respond TEXT_PROCESSOR bmp_writable first st in
  let st1 := snd r1 in
  let r2 := respond TEXT_PROCESSOR bmp_writable second st1 in
  let st2 := snd r2 in
  (fst r1 = Done tt \/ fst r1 = Thrown (Core OSError)) /\
  events st1 =
    snd (citizen_print_msg TEXT_PROCESSOR
           (text_or (tg.text m1) (tg.caption m1))
           (download_photo (tg.photo m1)) user_name (events st)) /\
  users st1 !! user_name = Some (Some 0) /\
  fst r2 = Done tt /\
  events st2 = events st1 /\ users st2 = users st1 /\
  messages st2 = messages st1 /\
  outbox st2 =
    outbox st1 ++ [tg.Reply_text (tg.message_id m2) OUT_OF_ATTEMPTS_MSG
                     (Some (tg.message_id m2))].
Proof.
  intros Hm1 Hu1 Hm2 Hu2 Hrow Hprint r1 st1 r2 st2.
  assert (Hget : User.get_msg_count user_name (users st) =
                 (Ok 1, <[user_name := Some 1]> (users st))).
  { unfold User.get_msg_count, User.scalar_messages_count, User.create.
    now rewrite Hrow. }
  destruct (respond_print_ok TEXT_PROCESSOR bmp_writable first m1 user_name
              Hm1 Hu1 st 1 _ Hget ltac:(lia) Hprint)
    as (_ & Hcount & Hevents & Hstored & Hrefused).
  fold r1 in Hcount, Hevents, Hstored, Hrefused. fold st1 in Hcount, Hevents.
  assert (Hout : fst r1 = Done tt \/ fst r1 = Thrown (Core OSError)).
  { destruct (download_photo (tg.photo m1)) as [i|] eqn:Hi.
    - destruct (bmp_writable i) eqn:Hbmp.
      + left; now apply Hstored.
      + right; now apply (Hrefused i).
    - left; now apply Hstored. }
  pose proof (respond_no_credit TEXT_PROCESSOR bmp_writable second m2
                user_name Hm2 Hu2 st1 0 Hcount ltac:(lia)) as Hsecond.
  fold r2 in Hsecond. subst st2; rewrite Hsecond; simpl.
  repeat split; auto.
Qed.


(** [respond] never lets [NothingToPrint], nor its subclass
    [UnsupportedFormat], escape: whatever it raises is another exception. *)
Theorem respond_contains_NothingToPrint (update : tg.Update) (st : bot_state)
  (e : tg_exn) :
  fst (respond TEXT_PROCESSOR bmp_writable update st) = Thrown e ->
  is_NothingToPrint e = false.
Proof.
  unfold respond, try_except_NothingToPrint.
  assert (Hreply : forall text s e0,
             fst ((let+ m := attr_of (tg.message update) in
                   reply_text m text (Some (tg.message_id m))) s) = Thrown e0 ->
             is_NothingToPrint e0 = false).
  { intros text s e0. unfold bot_bind, attr_of, bot_ret, bot_throw.
    destruct (tg.message update); simpl; [discriminate | now intros [= <-]]. }
  destruct (check_input update st) as [[[]|e1] st1].
  - destruct (save_and_print_msg TEXT_PROCESSOR bmp_writable update st1)
      as [[[]|e2] st2].
    + apply Hreply.
    + destruct (is_NothingToPrint e2) eqn:E2; [apply Hreply|].
      simpl; intros [= <-]; exact E2.
  - destruct (is_NothingToPrint e1) eqn:E1; simpl; [discriminate|].
    intros [= <-]; exact E1.
Qed.

(** [/start] works once: after a [start] that greeted the user, another
    [start] of the same update raises [IntegrityError] on the insertion and
    sends no greeting. *)
Theorem start_twice_raises (update : tg.Update) (st : bot_state) :
  fst (start update st) = Done tt ->
  start update (snd (start update st)) =
  (Thrown (Core IntegrityError), snd (start update st)).
Proof.
  unfold start, bot_bind, attr_of, bot_ret, bot_throw, on_users, reply_text,
    send, User.create_for, User.create.
  destruct (tg.effective_user update) as [[user_name|]|]; simpl;
    [|discriminate|discriminate].
  destruct (users st !! user_name) eqn:Hrow; simpl; [discriminate|].
  destruct (tg.message update) as [m|]; simpl; [|discriminate].
  intros _. now rewrite lookup_insert_eq.
Qed.

(** A user without username can neither sign up nor print: [start] and
    [respond] raise [IntegrityError] on the insertion of a row without name,
    before anything is printed, stored, charged or sent. *)
Theorem no_username_no_service (update : tg.Update) (st : bot_state) :
  tg.effective_user update = Some None ->
  start update st = (Thrown (Core IntegrityError), st) /\
  respond TEXT_PROCESSOR bmp_writable update st =
    (Thrown (Core IntegrityError), st).
Proof.
  intros Hu.
  unfold start, respond, try_except_NothingToPrint, check_input; rewrite Hu.
  destruct st; split; reflexivity.
Qed.

End RespondComposed.

Lemma no_username_no_service_witness :
  let update :=
    {| tg.message := Some test_message; tg.edited_message := None;
       tg.effective_message := Some test_message;
       tg.effective_user := Some None; tg.as_str := [] |} in
  respond TEST_PROCESSOR test_bmp_writable update (test_state 2) =
    (Thrown (Core IntegrityError), test_state 2).
Proof.
  intros update.
  apply (proj2 (no_username_no_service TEST_PROCESSOR test_bmp_writable update
                  (test_state 2) eq_refl)).
Defined.

Lemma respond_refuses_without_credit_witness :
  fst (respond TEST_PROCESSOR test_bmp_writable test_update (test_state 0))
    = Done tt /\
  outbox (snd (respond TEST_PROCESSOR test_bmp_writable test_update
                 (test_state 0))) =
    [] ++ [tg.Reply_text 7 OUT_OF_ATTEMPTS_MSG (Some 7)].
Proof.
  destruct (respond_refuses_without_credit TEST_PROCESSOR test_bmp_writable
              test_update (py "bob") (test_state 0) 0 eq_refl eq_refl
              ltac:(lia))
    as (_ & _ & _ & Hmessage & _).
  exact (Hmessage test_message eq_refl).
Defined.

Lemma respond_new_user_prints_once_witness :
  let st0 := {| users := ∅; messages := []; events := []; outbox := [] |} in
  let st1 := snd (respond TEST_PROCESSOR test_bmp_writable test_update st0) in
  users st1 !! py "bob" = Some (Some 0) /\
  events (snd (respond TEST_PROCESSOR test_bmp_writable snowman_update st1)) =
  events st1.
Proof.
  intros st0 st1.
  destruct (respond_new_user_prints_once TEST_PROCESSOR test_bmp_writable
              test_update snowman_update test_message
              {| tg.message_id := 7; tg.text := Some [9731%N];
                 tg.caption := None; tg.photo := [] |}
              (py "bob") st0 eq_refl eq_refl eq_refl eq_refl eq_refl eq_refl)
    as (_ & _ & Hcount & _ & Hevents & _).
  split; [exact Hcount | exact Hevents].
Defined.


Lemma respond_contains_NothingToPrint_witness :
  is_NothingToPrint (Core IndexError) = false.
Proof.
  apply (respond_contains_NothingToPrint TEST_PROCESSOR test_bmp_writable
           snowman_update (test_state 2) (Core IndexError)).
  reflexivity.
Defined.

Lemma start_twice_raises_witness :
  let st0 := {| users := ∅; messages := []; events := []; outbox := [] |} in
  start test_update (snd (start test_update st0)) =
  (Thrown (Core IntegrityError), snd (start test_update st0)).
Proof.
  intros st0. apply (start_twice_raises test_update st0). reflexivity.
Defined.

(** ** The fonts of the table *)

(** Every word of the table [word_table] returns, fragments included, carries
    a font of the font set of the processor: the rasterizer is never handed
    a font from elsewhere. *)
Theorem table_fonts_come_from_the_font_set (self : TextProcessor) (text : str)
  (tbl : list Line) :
  word_table self text = Ok tbl ->
  Forall (Forall (fun w : Word => In (snd w) (fonts self))) tbl.
Proof.
  unfold word_table; intros Hrun.
  apply bind_Ok_inv in Hrun as (ls & Hls & Hrun).
  apply bind_Ok_inv in Hrun as (ws & Hws & Hrun).
  apply bind_Ok_inv in Hrun as (st & Hloop & Hrun); injection Hrun as <-.
  pose proof (words_in_set self ls ws (letters_in_set self text ls Hls) Hws)
    as Hset.
  rewrite List.Forall_forall in Hset.
  eapply (for_each_invariant
            (fun s : table_state Word =>
               Forall (Forall (fun w : Word => In (snd w) (fonts self)))
                 (table s)));
    [|idtac|exact Hloop].
  - intros s x s' Hx Hs Hb.
    eapply word_table_body_in_set; eauto.
  - simpl; repeat constructor.
Qed.

Lemma table_fonts_come_from_the_font_set_witness :
  Forall (Forall (fun w : Word => In (snd w) [FontA; FontB]))
    [[(py "ab", FontA)]; [(py "cd", FontA)]].
Proof.
  apply (table_fonts_come_from_the_font_set TEST_PROCESSOR
           (py "ab" ++ [NL] ++ py "cd")).
  reflexivity.
Defined.
